(** * Baby Buddy integration: REST client and polling coordinator

    A shallow embedding of [custom_components/babybuddy/client.py] and
    [custom_components/babybuddy/__init__.py].

    Python exceptions are values of [exn]; a call that may raise returns
    a [res].  Objects that the code mutates (the client's endpoint map,
    the coordinator's [child_ids], the host's device registry, the
    logger) are passed in and handed back explicitly, also when the call
    raises, since a Python exception does not undo earlier mutations. *)

From stdpp Require Import gmap strings pretty list fin_maps.

Open Scope Z_scope.

(** ** Exceptions and results *)

(** The exception classes the two modules raise, catch or let through.
    [ClientResponseError] is aiohttp's subclass of [ClientError];
    the constructor [ClientError] stands for every other subclass.
    [AuthorizationError] and [ConnectError] are the classes of
    [errors.py], of which the sources only show the use.
    [UnboundLocalError] and [KeyError] are the interpreter's own.
    [RuntimeError] is what a coroutine raises when a [StopIteration]
    escapes its body.  The argument of a constructor is the argument
    the code passes to the class; the cause attached by [raise ... from]
    is not kept. *)
Inductive exn : Type :=
| TimeoutError
| ClientResponseError (status : Z)
| ClientError (detail : string)
| KeyError (key : string)
| UnboundLocalError (name : string)
| RuntimeError (detail : string)
| AuthorizationError
| ConnectError (err : exn)
| ConfigEntryAuthFailed
| ConfigEntryNotReady (err : exn)
| UpdateFailed (arg : exn_arg)
with exn_arg : Type :=
| Text (msg : string)
| Exc (err : exn).

Inductive res (A : Type) : Type :=
| Ok (a : A)
| Raise (e : exn).
Arguments Ok {A} a.
Arguments Raise {A} e.

(** ** Constants of [homeassistant.const] *)

Definition HTTP_OK : Z := 200.
Definition HTTP_CREATED : Z := 201.
Definition HTTP_FORBIDDEN : Z := 403.

(** Modelled from the spec: [const.py] is not among the sources; the
    paginated bodies carry the members [count] and [results]. *)
Definition ATTR_COUNT : string := "count".
Definition ATTR_RESULTS : string := "results".

(** ** JSON bodies *)

(** One record of an endpoint, an opaque [dict[str, str]]. *)
Abbreviation record := (gmap string string).

(** A child as the children endpoint lists it; the code reads the
    members [ATTR_ID], [ATTR_FIRST_NAME] and [ATTR_LAST_NAME].  The
    identifier is an integer, the key type in the annotation of
    [child_data]. *)
Record Child : Type := {
  child_id : Z;
  first_name : string;
  last_name : string;
}.

(** A paginated body, [dict[str, Any]]: either member may be missing
    (the empty dict [{}] has neither), and subscripting a missing
    member raises [KeyError]. *)
Record page (A : Type) : Type := {
  count : option Z;
  results : option (list A);
}.
Arguments count {A} p.
Arguments results {A} p.

Definition empty_dict {A} : page A := {| count := None; results := None |}.

Definition getitem {V} (member : option V) (key : string) : res V :=
  match member with
  | Some v => Ok v
  | None => Raise (KeyError key)
  end.

(** ** The HTTP session *)

(** What awaiting one request under [async_timeout.timeout(10)] ends in:
    a response with its status and decoded JSON body, the timeout, or
    another transport failure. *)
Inductive reply (A : Type) : Type :=
| Response (status : Z) (json : A)
| TimedOut
| Failed (detail : string).
Arguments Response {A} status json.
Arguments TimedOut {A}.
Arguments Failed {A} detail.

Abbreviation Headers := (gmap string string).
Abbreviation payload := (gmap string string).

(** The aiohttp session with the server behind it, for the duration of
    one call or one refresh pass: within it the same request gets the
    same reply.  [resp.json()] is untyped in Python; the annotations of
    the callers fix the shape each of them reads, so GET is seen through
    one reader per shape: the root listing ([dict[str, str]]), the
    children page and the page of an endpoint's records.  The bodies of
    POST, PATCH and DELETE are only logged and kept as text. *)
Record ClientSession : Type := {
  get_root : string → Headers → reply (gmap string string);
  get_children : string → Headers → reply (page Child);
  get_records : string → Headers → reply (page record);
  session_post : string → Headers → payload → reply string;
  session_patch : string → Headers → payload → reply string;
  session_delete : string → Headers → reply string;
}.

(** ** Logging *)

(** An entry of [SENSOR_TYPES]; the coordinator reads its [key]. *)
Record SensorEntityDescription : Type := { key : string }.

Inductive LogRecord : Type :=
| LogPostData (data : payload)                            (* debug *)
| LogError (err : exn)                                    (* error *)
| LogCouldNotCreate (endpoint error : string)             (* error *)
| LogCouldNotUpdate (endpoint entry error : string)       (* error *)
| LogCouldNotDelete (endpoint entry error : string)       (* error *)
| LogNoEndpoint (endpoint : SensorEntityDescription) (first last : string).
                                                          (* debug *)

(** ** [client.py] *)

Record BabyBuddyClient : Type := {
  headers : Headers;
  url : string;
  endpoints : gmap string string;
}.

Definition set_endpoints (self : BabyBuddyClient) (m : gmap string string)
  : BabyBuddyClient :=
  {| headers := headers self; url := url self; endpoints := m |}.

(** [BabyBuddyClient.__init__] *)
Definition BabyBuddyClient_init (host : string) (port : Z) (api_key : string)
  : BabyBuddyClient :=
  {| headers := {[ "Authorization" := "Token " +:+ api_key ]};
     url := host +:+ ":" +:+ pretty port;
     endpoints := ∅ |}.

(** Truth value of a [str | None] argument: [None] and the empty string
    are false. *)
Definition truthy (s : option string) : bool :=
  match s with
  | Some (String _ _) => true
  | _ => false
  end.

(** Lines 36-40 of [async_get]: the URL the request goes to. *)
Definition request_url (self : BabyBuddyClient) (endpoint entry : option string)
  : res string :=
  if truthy endpoint then
    let endpoint := default "" endpoint in
    match endpoints self !! endpoint with
    | None => Raise (KeyError endpoint)
    | Some url =>
        if truthy entry then Ok (url +:+ default "" entry) else Ok url
    end
  else Ok (url self +:+ "/api/").

(** Awaiting [session.get(..., raise_for_status=True)] and then
    [resp.json()]: a status of 400 or above raises; the body of a reply
    is taken as decoded. *)
Definition get_json {A} (r : reply A) : res A :=
  match r with
  | Response status json =>
      if bool_decide (400 ≤ status) then Raise (ClientResponseError status)
      else Ok json
  | TimedOut => Raise TimeoutError
  | Failed detail => Raise (ClientError detail)
  end.

Definition async_get {A} (get : string → Headers → reply A)
    (self : BabyBuddyClient) (endpoint entry : option string) : res A :=
  match request_url self endpoint entry with
  | Raise e => Raise e
  | Ok url => get_json (get url (headers self))
  end.

(** The [try] block shared by POST, PATCH and DELETE: [resp] is bound
    only when the request returns; the two [except] clauses log. *)
Definition try_request {A} (r : reply A) : option (Z * A) * list LogRecord :=
  match r with
  | Response status json => (Some (status, json), [])
  | TimedOut => (None, [LogError TimeoutError])
  | Failed detail => (None, [LogError (ClientError detail)])
  end.

(** The statement after the [try]: reading [resp.status] when [resp] was
    never bound raises [UnboundLocalError]. *)
Definition check_status (resp : option (Z * string)) (expected : Z)
    (failure : string → LogRecord) : list LogRecord * res unit :=
  match resp with
  | None => ([], Raise (UnboundLocalError "resp"))
  | Some (status, error) =>
      if bool_decide (status ≠ expected) then ([failure error], Ok ())
      else ([], Ok ())
  end.

Definition async_post (session : ClientSession) (self : BabyBuddyClient)
    (endpoint : string) (data : payload) : list LogRecord * res unit :=
  let log := [LogPostData data] in
  match endpoints self !! endpoint with
  | None => (log, Raise (KeyError endpoint))
  | Some url =>
      let '(resp, logged) :=
        try_request (session_post session url (headers self) data) in
      let '(logged', r) :=
        check_status resp HTTP_CREATED (LogCouldNotCreate endpoint) in
      (log ++ logged ++ logged', r)
  end.

Definition async_patch (session : ClientSession) (self : BabyBuddyClient)
    (endpoint entry : string) (data : payload) : list LogRecord * res unit :=
  match endpoints self !! endpoint with
  | None => ([], Raise (KeyError endpoint))
  | Some url =>
      let '(resp, logged) :=
        try_request
          (session_patch session (url +:+ entry +:+ "/") (headers self) data) in
      let '(logged', r) :=
        check_status resp HTTP_OK (LogCouldNotUpdate endpoint entry) in
      (logged ++ logged', r)
  end.

Definition async_delete (session : ClientSession) (self : BabyBuddyClient)
    (endpoint entry : string) : list LogRecord * res unit :=
  match endpoints self !! endpoint with
  | None => ([], Raise (KeyError endpoint))
  | Some url =>
      let '(resp, logged) :=
        try_request
          (session_delete session (url +:+ entry +:+ "/") (headers self)) in
      let '(logged', r) :=
        check_status resp 204 (LogCouldNotDelete endpoint entry) in
      (logged ++ logged', r)
  end.

(** [async_connect]: the first [except] clause takes every
    [ClientResponseError], whatever its status. *)
Definition async_connect (session : ClientSession) (self : BabyBuddyClient)
  : BabyBuddyClient * res unit :=
  match async_get (get_root session) self None None with
  | Ok listing => (set_endpoints self listing, Ok ())
  | Raise (ClientResponseError _) => (self, Raise AuthorizationError)
  | Raise ((TimeoutError | ClientError _) as err) =>
      (self, Raise (ConnectError err))
  | Raise err => (self, Raise err)
  end.

(** ** Host framework: the device registry *)

(** A device of the host registry.  [identifiers] is a set of
    [(domain, identifier)] pairs, listed in its iteration order; the
    sensor platform registers a child's device under
    [(DOMAIN, child[ATTR_ID])]. *)
Record DeviceEntry : Type := {
  identifiers : list (string * Z);
  config_entries : list string;
}.

(** The registry's [devices], keyed by [device.id]. *)
Abbreviation DeviceRegistry := (gmap string DeviceEntry).

Definition async_entries_for_config_entry (dr : DeviceRegistry)
    (config_entry_id : string) : list (string * DeviceEntry) :=
  filter (λ device, config_entry_id ∈ config_entries device.2) (map_to_list dr).

Definition async_remove_device (dr : DeviceRegistry) (device_id : string)
  : DeviceRegistry :=
  delete device_id dr.

(** ** [__init__.py] *)

(** [child_data]: child identifier, then endpoint key, then the latest
    record. *)
Abbreviation snapshot := (gmap Z (gmap string record)).

(** The coordinator.  [data] is the attribute of the host's
    [DataUpdateCoordinator] that holds what the last pass that returned
    handed back; [async_update] itself never reads or writes it. *)
Record BabyBuddyCoordinator : Type := {
  entry_id : string;               (* self.config_entry.entry_id *)
  client : BabyBuddyClient;
  child_ids : list Z;
  data : option (list Child * snapshot);
}.

(** What a refresh pass reads and mutates: the coordinator, the host's
    device registry and service table, and the module loggers. *)
Record World : Type := {
  coordinator : BabyBuddyCoordinator;
  registry : DeviceRegistry;
  services : list (string * string);
  logger : list LogRecord;
}.

Definition set_client (w : World) (c : BabyBuddyClient) : World :=
  {| coordinator := {| entry_id := entry_id (coordinator w); client := c;
                       child_ids := child_ids (coordinator w);
                       data := data (coordinator w) |};
     registry := registry w; services := services w; logger := logger w |}.

Definition set_child_ids (w : World) (ids : list Z) : World :=
  {| coordinator := {| entry_id := entry_id (coordinator w);
                       client := client (coordinator w); child_ids := ids;
                       data := data (coordinator w) |};
     registry := registry w; services := services w; logger := logger w |}.

Definition set_data (w : World) (d : option (list Child * snapshot)) : World :=
  {| coordinator := {| entry_id := entry_id (coordinator w);
                       client := client (coordinator w);
                       child_ids := child_ids (coordinator w); data := d |};
     registry := registry w; services := services w; logger := logger w |}.

Definition set_registry (w : World) (dr : DeviceRegistry) : World :=
  {| coordinator := coordinator w; registry := dr;
     services := services w; logger := logger w |}.

Definition set_services (w : World) (s : list (string * string)) : World :=
  {| coordinator := coordinator w; registry := registry w;
     services := s; logger := logger w |}.

Definition set_logger (w : World) (l : list LogRecord) : World :=
  {| coordinator := coordinator w; registry := registry w;
     services := services w; logger := l |}.

(** A coroutine of the coordinator: it runs on the world and ends in a
    value or an exception; the world it leaves is kept either way. *)
Definition M (A : Type) : Type := World → World * res A.

Definition ret {A} (a : A) : M A := λ w, (w, Ok a).
Definition raise {A} (e : exn) : M A := λ w, (w, Raise e).
Definition lift {A} (r : res A) : M A := λ w, (w, r).

Definition bind {A B} (m : M A) (k : A → M B) : M B :=
  λ w, match m w with
       | (w', Ok a) => k a w'
       | (w', Raise e) => (w', Raise e)
       end.

Definition try_except {A} (m : M A) (handler : exn → M A) : M A :=
  λ w, match m w with
       | (w', Ok a) => (w', Ok a)
       | (w', Raise e) => handler e w'
       end.

Notation "'let*' x ':=' m 'in' k" := (bind m (λ x, k))
  (at level 10, x name, m at level 100, k at level 200).
Notation "m ';;' k" := (bind m (λ _, k))
  (at level 100, k at level 200, right associativity).

Definition self_client : M BabyBuddyClient :=
  λ w, (w, Ok (client (coordinator w))).

Definition log (r : LogRecord) : M unit :=
  λ w, (set_logger w (logger w ++ [r]), Ok ()).

(** [for device in ...: if next(iter(device.identifiers))[1] not in
    self.child_ids: dr.async_remove_device(device.id)] *)
Fixpoint remove_devices (child_ids : list Z)
    (devices : list (string * DeviceEntry)) (dr : DeviceRegistry)
  : DeviceRegistry * res unit :=
  match devices with
  | [] => (dr, Ok ())
  | (device_id, device) :: rest =>
      match identifiers device with
      | [] => (dr, Raise (RuntimeError "coroutine raised StopIteration"))
      | identifier :: _ =>
          if bool_decide (identifier.2 ∉ child_ids)
          then remove_devices child_ids rest (async_remove_device dr device_id)
          else remove_devices child_ids rest dr
      end
  end.

Definition async_remove_deleted_childs : M unit :=
  λ w,
    let self := coordinator w in
    let dr := registry w in
    let '(dr', r) :=
      remove_devices (child_ids self)
        (async_entries_for_config_entry dr (entry_id self)) dr in
    (set_registry w dr', r).

(** [f"?child={child[ATTR_ID]}&limit=1"] *)
Definition child_query (id : Z) : string :=
  "?child=" +:+ pretty id +:+ "&limit=1".

(** [child_data.setdefault(key, {})] *)
Definition setdefault (child_data : snapshot) (k : Z) : snapshot :=
  match child_data !! k with
  | Some _ => child_data
  | None => <[k := ∅]> child_data
  end.

(** [child_data[k][endpoint] = value] *)
Definition setitem (child_data : snapshot) (k : Z) (endpoint : string)
    (value : record) : res snapshot :=
  match child_data !! k with
  | Some latest => Ok (<[k := <[endpoint := value]> latest]> child_data)
  | None => Raise (KeyError (pretty k))
  end.

(** [data[0] if data else {}] *)
Definition first_or_empty (data : list record) : record :=
  match data with
  | r :: _ => r
  | [] => ∅
  end.

(** [child_data[i][k]], when both keys are there. *)
Definition entry (s : snapshot) (i : Z) (k : string) : option record :=
  s !! i ≫= λ latest, latest !! k.

(** A [for] loop whose body updates the local [s]; an exception in the
    body ends the loop. *)
Fixpoint for_each {A S} (body : A → S → M S) (todo : list A) (s : S) : M S :=
  match todo with
  | [] => ret s
  | a :: todo => let* s := body a s in for_each body todo s
  end.

Section Coordinator.

(** Taken as given: [const.py] is not among the sources. *)
Variable ATTR_CHILDREN : string.
Variable SENSOR_TYPES : list SensorEntityDescription.
Variable DOMAIN : string.

Variable session : ClientSession.

(** The [try] statement of lines 146-157; [None] stands for [continue]. *)
Definition fetch_latest (child : Child) (endpoint : SensorEntityDescription)
  : M (option (page record)) :=
  try_except
    (let* self_client := self_client in
     let* endpoint_data :=
       lift (async_get (get_records session) self_client
               (Some (key endpoint)) (Some (child_query (child_id child)))) in
     ret (Some endpoint_data))
    (λ err,
       match err with
       | ClientResponseError _ =>
           log (LogNoEndpoint endpoint (first_name child) (last_name child));;
           ret None
       | TimeoutError | ClientError _ =>
           log (LogError err);;
           ret None
       | _ => raise err
       end).

(** The body of [for endpoint in SENSOR_TYPES], lines 145-159. *)
Definition endpoint_body (child : Child) (endpoint : SensorEntityDescription)
    (child_data : snapshot) : M snapshot :=
  let* fetched := fetch_latest child endpoint in
  match fetched with
  | None => ret child_data
  | Some endpoint_data =>
      let* data := lift (getitem (results endpoint_data) ATTR_RESULTS) in
      lift (setitem child_data (child_id child) (key endpoint)
              (first_or_empty data))
  end.

(** [if child[ATTR_ID] not in self.child_ids: self.child_ids.append(...)] *)
Definition remember_child (child : Child) : M unit :=
  λ w,
    let ids := child_ids (coordinator w) in
    if bool_decide (child_id child ∉ ids)
    then (set_child_ids w (ids ++ [child_id child]), Ok ())
    else (w, Ok ()).

(** The body of [for child in children_list[ATTR_RESULTS]], lines
    141-159. *)
Definition child_body (child : Child) (child_data : snapshot) : M snapshot :=
  remember_child child;;
  let child_data := setdefault child_data (child_id child) in
  for_each (endpoint_body child) SENSOR_TYPES child_data.

(** The [try] statement of lines 128-135: a [ClientResponseError] whose
    status is not [HTTP_FORBIDDEN] ends the handler without raising and
    leaves [children_list] as it was initialised. *)
Definition fetch_children : M (page Child) :=
  try_except
    (let* self_client := self_client in
     lift (async_get (get_children session) self_client
             (Some ATTR_CHILDREN) None))
    (λ err,
       match err with
       | ClientResponseError status =>
           if bool_decide (status = HTTP_FORBIDDEN)
           then raise ConfigEntryAuthFailed
           else ret empty_dict
       | TimeoutError | ClientError _ => raise (UpdateFailed (Exc err))
       | _ => raise err
       end).

Definition no_children : string :=
  "No children found. Please add at least one child.".

Definition async_update : M (list Child * snapshot) :=
  let child_data : snapshot := ∅ in
  let* children_list := fetch_children in
  let* n := lift (getitem (count children_list) ATTR_COUNT) in
  if bool_decide (n = 0) then raise (UpdateFailed (Text no_children))
  else
    let* children := lift (getitem (results children_list) ATTR_RESULTS) in
    let* child_data := for_each child_body children child_data in
    async_remove_deleted_childs;;
    let* children := lift (getitem (results children_list) ATTR_RESULTS) in
    ret (children, child_data).

(** [async_setup]: connect, then register the [add_child] service (the
    table keeps the name it is registered under, not its handler). *)
Definition async_setup : M unit :=
  try_except
    (λ w, let '(c, r) := async_connect session (client (coordinator w)) in
          (set_client w c, r))
    (λ err,
       match err with
       | AuthorizationError => raise ConfigEntryAuthFailed
       | ConnectError _ => raise (ConfigEntryNotReady err)
       | _ => raise err
       end);;
  λ w, (set_services w (services w ++ [(DOMAIN, "add_child")]), Ok ()).

(** ** Vocabulary of the statements below *)

(** The two requests of a pass, as the coordinator's client issues them. *)
Definition children_of (w : World) : res (page Child) :=
  async_get (get_children session) (client (coordinator w))
    (Some ATTR_CHILDREN) None.

Definition latest_of (c : BabyBuddyClient) (id : Z) (k : string)
  : res (page record) :=
  async_get (get_records session) c (Some k) (Some (child_query id)).

(** Every stored record is the head of the results fetched for its
    child and endpoint key through the client [c], or the empty record
    when those results are empty. *)
Definition faithful (c : BabyBuddyClient) (s : snapshot) : Prop :=
  ∀ i k v, entry s i k = Some v →
    ∃ endpoint_data data,
      latest_of c i k = Ok endpoint_data
      ∧ results endpoint_data = Some data
      ∧ v = first_or_empty data.

End Coordinator.

(** One tick of the host's update coordinator, as far as this
    integration sees it: [async_update] runs, and what it returns
    replaces [data]; when it raises, [data] stays. *)
Definition async_refresh (ATTR_CHILDREN : string)
    (SENSOR_TYPES : list SensorEntityDescription)
    (session : ClientSession) (w : World) : World :=
  match async_update ATTR_CHILDREN SENSOR_TYPES session w with
  | (w', Ok result) => set_data w' (Some result)
  | (w', Raise _) => w'
  end.

(** Successive ticks, each with the session as the server then answers. *)
Fixpoint refresh_passes (ATTR_CHILDREN : string)
    (SENSOR_TYPES : list SensorEntityDescription)
    (ticks : list ClientSession) (w : World) : World :=
  match ticks with
  | [] => w
  | session :: ticks =>
      refresh_passes ATTR_CHILDREN SENSOR_TYPES ticks
        (async_refresh ATTR_CHILDREN SENSOR_TYPES session w)
  end.

(** ** The [add_child] service *)

Section Services.

(** Taken as given: [const.py] is not among the sources. *)
Variable ATTR_CHILDREN : string.
Variable ATTR_FIRST_NAME ATTR_LAST_NAME ATTR_BIRTH_DATE : string.

Variable session : ClientSession.

(** [self.async_request_refresh()], the host's debounced refresh. *)
Variable async_request_refresh : M unit.




End Services.

(** ** [get_datetime_from_time] *)

(** A [datetime.time] and a [datetime.datetime] as far as the function
    looks at them: the day (its proleptic ordinal), the time of day (in
    microseconds since midnight) and the tzinfo. *)
Record py_time : Type := {
  time_of_day : Z;
  time_tzinfo : option string;
}.

Record py_datetime : Type := {
  day : Z;
  of_day : Z;
  tzinfo : option string;
}.

Inductive time_value : Type :=
| ATime (t : py_time)
| ADatetime (d : py_datetime).

(** The function returns or raises [ValidationError], of [errors.py]. *)
Inductive validated : Type :=
| Valid (d : py_datetime)
| ValidationError (msg : string).

(** [a > b] for two datetimes that carry the same tzinfo object, as the
    two compared here do: Python then compares day and time of day and
    looks at nothing else. *)
Definition later (a b : py_datetime) : bool :=
  bool_decide (day b < day a ∨ (day a = day b ∧ of_day b < of_day a)).

(** [datetime.combine(date, time, tzinfo)] *)
Definition combine (date : Z) (t : py_time) (tz : string) : py_datetime :=
  {| day := date; of_day := time_of_day t; tzinfo := Some tz |}.

(** [value.replace(tzinfo=tz)] *)
Definition replace_tzinfo (d : py_datetime) (tz : string) : py_datetime :=
  {| day := day d; of_day := of_day d; tzinfo := Some tz |}.

(** [dt_util.now()] when the clock reads day [reading.1] and time of
    day [reading.2] in the default time zone. *)
Definition dt_now (tz : string) (reading : Z * Z) : py_datetime :=
  {| day := reading.1; of_day := reading.2; tzinfo := Some tz |}.

(** [get_datetime_from_time]: [first] is the clock as [dt_util.now()]
    reads it for today's date, [second] as it reads it for the
    comparison.  After the first [if] the value is a datetime in either
    case, so the second [if] always applies. *)
Definition get_datetime_from_time (DEFAULT_TIME_ZONE : string)
    (first second : Z * Z) (value : time_value) : validated :=
  let value :=
    match value with
    | ATime t => combine (day (dt_now DEFAULT_TIME_ZONE first)) t
                   DEFAULT_TIME_ZONE
    | ADatetime d => d
    end in
  let value := replace_tzinfo value DEFAULT_TIME_ZONE in
  if later value (dt_now DEFAULT_TIME_ZONE second)
  then ValidationError "Time cannot be in the future."
  else Valid value.

(** The clock does not run backwards between two readings. *)
Definition not_before (a b : Z * Z) : Prop :=
  a.1 < b.1 ∨ (a.1 = b.1 ∧ a.2 ≤ b.2).


(** ** Setting up and unloading a config entry *)

(** A config entry: its id, the three members of [data] the coordinator
    reads, and [options.get(CONF_SCAN_INTERVAL)]. *)
Record ConfigEntry : Type := {
  config_entry_id : string;
  conf_host : string;
  conf_port : Z;
  conf_api_key : string;
  conf_scan_interval : option Z;
}.

(** A coordinator object as [hass.data] holds it: the state kept so
    far, and the [update_interval] (in seconds) it inherits from the
    host's [DataUpdateCoordinator]. *)
Record Coordinator : Type := {
  this : BabyBuddyCoordinator;
  update_interval : Z;
}.

(** The host, as the module-level functions see it: [hass.data.get(DOMAIN)],
    the device registry, the names of the registered services, the
    coordinator whose [async_add_child] closure is the handler
    registered for [add_child], the log, the entries handed to
    [async_setup_platforms], and the refreshes asked for. *)
Record HomeAssistant : Type := {
  domain_data : option (gmap string Coordinator);
  device_registry : DeviceRegistry;
  service_table : list (string * string);
  add_child_handler : option string;
  log_records : list LogRecord;
  platform_setups : list string;
  refresh_requests : list string;
}.

(** [BabyBuddyCoordinator.__init__] *)
Definition BabyBuddyCoordinator_init (DEFAULT_SCAN_INTERVAL : Z)
    (config_entry : ConfigEntry) : Coordinator :=
  {| this :=
       {| entry_id := config_entry_id config_entry;
          client := BabyBuddyClient_init (conf_host config_entry)
                      (conf_port config_entry) (conf_api_key config_entry);
          child_ids := [];
          data := None |};
     update_interval :=
       default DEFAULT_SCAN_INTERVAL (conf_scan_interval config_entry) |}.

(** The world a coordinator's coroutines run on, and the host after
    they ran. *)
Definition world_of (hass : HomeAssistant) (self : BabyBuddyCoordinator)
  : World :=
  {| coordinator := self; registry := device_registry hass;
     services := service_table hass; logger := log_records hass |}.

Definition hass_of (hass : HomeAssistant) (w : World) : HomeAssistant :=
  {| domain_data := domain_data hass;
     device_registry := registry w;
     service_table := services w;
     add_child_handler := add_child_handler hass;
     log_records := logger w;
     platform_setups := platform_setups hass;
     refresh_requests := refresh_requests hass |}.

(** [hass.services.async_remove(domain, service)] *)
Definition async_remove (table : list (string * string))
    (name : string * string) : list (string * string) :=
  filter (λ registered, registered ≠ name) table.

Section Entries.

(** Taken as given: [const.py] is not among the sources. *)
Variable DOMAIN : string.
Variable ATTR_CHILDREN : string.
Variable SENSOR_TYPES : list SensorEntityDescription.
Variable DEFAULT_SCAN_INTERVAL : Z.

(** [async_setup_entry]: [session] is the server during setup. *)
Definition async_setup_entry (session : ClientSession)
    (config_entry : ConfigEntry) (hass : HomeAssistant)
  : HomeAssistant * res bool :=
  let created :=
    BabyBuddyCoordinator_init DEFAULT_SCAN_INTERVAL config_entry in
  match async_setup DOMAIN session (world_of hass (this created)) with
  | (w, Raise e) => (hass_of hass w, Raise e)
  | (w, Ok _) =>
      let w := async_refresh ATTR_CHILDREN SENSOR_TYPES session w in
      let stored :=
        {| this := coordinator w;
           update_interval := update_interval created |} in
      ({| domain_data :=
            Some (<[config_entry_id config_entry := stored]>
                    (default ∅ (domain_data hass)));
          device_registry := registry w;
          service_table := services w;
          add_child_handler := Some (config_entry_id config_entry);
          log_records := logger w;
          platform_setups :=
            platform_setups hass ++ [config_entry_id config_entry];
          refresh_requests := refresh_requests hass |},
       Ok true)
  end.

(** [async_unload_entry]: [unload_ok] is what the host's
    [async_unload_platforms] answered. *)
Definition async_unload_entry (unload_ok : bool)
    (config_entry : ConfigEntry) (hass : HomeAssistant)
  : HomeAssistant * res bool :=
  let popped : res (option (gmap string Coordinator)) :=
    if unload_ok then
      match domain_data hass with
      | None => Raise (KeyError DOMAIN)
      | Some entries =>
          match entries !! config_entry_id config_entry with
          | None => Raise (KeyError (config_entry_id config_entry))
          | Some _ => Ok (Some (delete (config_entry_id config_entry) entries))
          end
      end
    else Ok (domain_data hass) in
  match popped with
  | Raise e => (hass, Raise e)
  | Ok None => (hass, Raise (KeyError DOMAIN))
  | Ok (Some entries) =>
      let removed := bool_decide (entries = ∅) in
      ({| domain_data := Some entries;
          device_registry := device_registry hass;
          service_table :=
            if removed
            then async_remove (service_table hass) (DOMAIN, "add_child")
            else service_table hass;
          add_child_handler :=
            if removed then None else add_child_handler hass;
          log_records := log_records hass;
          platform_setups := platform_setups hass;
          refresh_requests := refresh_requests hass |},
       Ok unload_ok)
  end.


End Entries.


(** * Vocabulary and worked examples *)

(** The URL of a named endpoint: the stored URL, followed by the entry
    when there is one. *)
Definition url_with (u : string) (entry : option string) : string :=
  match entry with
  | Some entry => u +:+ entry
  | None => u
  end.

(** The child a device stands for: [next(iter(device.identifiers))[1]]. *)
Definition child_of (device : DeviceEntry) : option Z :=
  snd <$> head (identifiers device).

(** A device of this config entry whose child is not among the known
    identifiers. *)
Definition unknown (self : BabyBuddyCoordinator) (device : DeviceEntry) : Prop :=
  entry_id self ∈ config_entries device
  ∧ ∃ i, child_of device = Some i ∧ i ∉ child_ids self.

(** Every device of this config entry has an identifier. *)
Definition identified (w : World) : Prop :=
  ∀ device_id device,
    registry w !! device_id = Some device →
    entry_id (coordinator w) ∈ config_entries device →
    identifiers device ≠ [].

(** Only the logger moved. *)
Definition logs_only (w w' : World) : Prop :=
  coordinator w' = coordinator w
  ∧ registry w' = registry w
  ∧ services w' = services w.

(** The known identifiers were extended at the end, by members of [X];
    nothing but they and the logger moved. *)
Definition grows (X : list Z) (w w' : World) : Prop :=
  client (coordinator w') = client (coordinator w)
  ∧ entry_id (coordinator w') = entry_id (coordinator w)
  ∧ registry w' = registry w
  ∧ services w' = services w
  ∧ child_ids (coordinator w) `prefix_of` child_ids (coordinator w')
  ∧ ∀ i, i ∈ child_ids (coordinator w') →
         i ∈ child_ids (coordinator w) ∨ i ∈ X.

(** A session whose server answers every GET of the root listing with
    the given status and body, and nothing else. *)
Definition root_session (status : Z) (listing : gmap string string)
  : ClientSession :=
  {| get_root := λ _ _, Response status listing;
     get_children := λ _ _, TimedOut;
     get_records := λ _ _, TimedOut;
     session_post := λ _ _ _, TimedOut;
     session_patch := λ _ _ _, TimedOut;
     session_delete := λ _ _, TimedOut |}.

(** A session on which every write times out. *)
Definition timeout_session : ClientSession :=
  {| get_root := λ _ _, TimedOut;
     get_children := λ _ _, TimedOut;
     get_records := λ _ _, TimedOut;
     session_post := λ _ _ _, TimedOut;
     session_patch := λ _ _ _, TimedOut;
     session_delete := λ _ _, TimedOut |}.

Definition feeding : SensorEntityDescription := {| key := "feeding" |}.

Definition example_child : Child :=
  {| child_id := 1; first_name := "A"; last_name := "B" |}.

Definition example_client : BabyBuddyClient :=
  set_endpoints (BabyBuddyClient_init "http://babybuddy" 8000 "key")
    {[ "children" := "http://babybuddy:8000/api/children/";
       "feeding" := "http://babybuddy:8000/api/feedings/" ]}.

(** The server of the examples: [children_reply] and [feeding_reply] are
    what it answers on the two URLs of a pass over child 1; any other
    URL is not found. *)
Definition example_server (children_reply : reply (page Child))
    (feeding_reply : reply (page record)) : ClientSession :=
  {| get_root := λ _ _, Response 200 (endpoints example_client);
     get_children := λ url _,
       if bool_decide (url = "http://babybuddy:8000/api/children/")
       then children_reply else Response 404 empty_dict;
     get_records := λ url _,
       if bool_decide
            (url = "http://babybuddy:8000/api/feedings/?child=1&limit=1")
       then feeding_reply else Response 404 empty_dict;
     session_post := λ _ _ _, TimedOut;
     session_patch := λ _ _ _, TimedOut;
     session_delete := λ _ _, TimedOut |}.

Definition one_child : page Child :=
  {| count := Some 1; results := Some [example_child] |}.

Definition no_results : page record :=
  {| count := None; results := Some [] |}.

Definition example_session : ClientSession :=
  example_server (Response 200 one_child) (Response 200 no_results).

Definition example_world : World :=
  {| coordinator := {| entry_id := "entry"; client := example_client;
                       child_ids := []; data := None |};
     registry := ∅; services := []; logger := [] |}.

(** A world left by earlier passes: child 1 is known, [data] holds a
    feeding for it, and the registry has the device of child 1, the
    device of a child 2 that was never listed, and a device of another
    integration. *)
Definition later_world : World :=
  {| coordinator :=
       {| entry_id := "entry"; client := example_client; child_ids := [1];
          data := Some ([example_child],
                        {[ 1 := {[ "feeding" := {[ "id" := "7" ]} ]} ]}) |};
     registry :=
       {[ "device-1" := {| identifiers := [("babybuddy", 1)];
                           config_entries := ["entry"] |};
          "device-2" := {| identifiers := [("babybuddy", 2)];
                           config_entries := ["entry"] |};
          "device-3" := {| identifiers := [("other", 2)];
                           config_entries := ["other-entry"] |} ]};
     services := []; logger := [] |}.

(** ** Vocabulary of the further properties *)


(** What the pass logs for one child and endpoint. *)
Definition fetch_log (session : ClientSession) (c : BabyBuddyClient)
    (child : Child) (endpoint : SensorEntityDescription) : list LogRecord :=
  match latest_of session c (child_id child) (key endpoint) with
  | Raise (ClientResponseError _) =>
      [LogNoEndpoint endpoint (first_name child) (last_name child)]
  | Raise ((TimeoutError | ClientError _) as err) => [LogError err]
  | _ => []
  end.

(** What a pass over [children] logs, in the order of its loops. *)
Definition pass_log (SENSOR_TYPES : list SensorEntityDescription)
    (session : ClientSession) (c : BabyBuddyClient) (children : list Child)
  : list LogRecord :=
  children ≫= λ child, SENSOR_TYPES ≫= fetch_log session c child.

(** Every record of the snapshot sits under one of the keys [K]. *)
Definition keys_within (K : list string) (s : snapshot) : Prop :=
  ∀ i k v, entry s i k = Some v → k ∈ K.




(** The snapshot of the worked pass, and the one of a pass in which the
    feeding fetch failed. *)
Definition example_snapshot : snapshot := {[ 1 := {[ "feeding" := ∅ ]} ]}.

Definition skipped_snapshot : snapshot := {[ 1 := ∅ ]}.


(** A config entry for the example server, and a host on which nothing
    was set up yet. *)
Definition example_entry : ConfigEntry :=
  {| config_entry_id := "entry"; conf_host := "http://babybuddy";
     conf_port := 8000; conf_api_key := "key";
     conf_scan_interval := None |}.

Definition empty_host : HomeAssistant :=
  {| domain_data := None; device_registry := ∅; service_table := [];
     add_child_handler := None; log_records := [];
     platform_setups := []; refresh_requests := [] |}.


(** * Properties of the client *)

Lemma append_empty_r (s : string) : s +:+ "" = s.
Proof.
  induction s as [|a s IH]; [reflexivity|].
  change (String a s +:+ "") with (String a (s +:+ "")). by rewrite IH.
Qed.

Lemma truthy_name (s : string) : s ≠ "" → truthy (Some s) = true.
Proof. by destruct s. Qed.

Lemma request_url_named self endpoint entry u :
  endpoint ≠ "" →
  endpoints self !! endpoint = Some u →
  request_url self (Some endpoint) entry = Ok (url_with u entry).
Proof.
  intros Hname Hu. unfold request_url.
  rewrite (truthy_name _ Hname). simpl. rewrite Hu.
  destruct entry as [[|a q]|]; simpl; try reflexivity.
  by rewrite append_empty_r.
Qed.

Lemma async_connect_ok session self self' :
  async_connect session self = (self', Ok ()) →
  get_json (get_root session (url self +:+ "/api/") (headers self))
    = Ok (endpoints self')
  ∧ headers self' = headers self ∧ url self' = url self.
Proof.
  unfold async_connect, async_get. simpl.
  destruct (get_json _) as [listing|err].
  - intros [= <-]. done.
  - by destruct err.
Qed.

Lemma async_connect_http_error session self status body :
  get_root session (url self +:+ "/api/") (headers self) = Response status body →
  400 ≤ status →
  async_connect session self = (self, Raise AuthorizationError).
Proof.
  intros Hreply Hstatus. unfold async_connect, async_get. simpl.
  rewrite Hreply. simpl. by rewrite bool_decide_eq_true_2.
Qed.

(** C7, as stated, fails for the empty endpoint name: [if endpoint:]
    takes it for a missing argument, and the request goes to the root
    listing although the map holds a URL under that name. *)
Lemma get_empty_endpoint_name_counterexample :
  ¬ (∀ (session : ClientSession) (self self' : BabyBuddyClient)
       (endpoint u : string) (suffix : option string),
       async_connect session self = (self', Ok ()) →
       endpoints self' !! endpoint = Some u →
       request_url self' (Some endpoint) suffix = Ok (url_with u suffix)).
Proof.
  intros H.
  pose (self := BabyBuddyClient_init "http://babybuddy" 8000 "key").
  pose (listing := ({[ "" := "http://babybuddy:8000/api/notes/" ]}
                      : gmap string string)).
  specialize (H (root_session 200 listing) self (set_endpoints self listing)
                "" "http://babybuddy:8000/api/notes/" None eq_refl eq_refl).
  vm_compute in H. discriminate H.
Qed.

(** C7 (amended): after a successful connect the endpoint map is the
    root listing the server returned, and a GET for a non-empty
    endpoint name goes to exactly the URL stored under that name,
    followed by the query suffix when one is given. *)
Theorem connect_then_get_uses_stored_url
    (session : ClientSession) (self self' : BabyBuddyClient)
    (endpoint u : string) (suffix : option string) :
  async_connect session self = (self', Ok ()) →
  endpoint ≠ "" →
  endpoints self' !! endpoint = Some u →
  get_json (get_root session (url self +:+ "/api/") (headers self))
    = Ok (endpoints self')
  ∧ request_url self' (Some endpoint) suffix = Ok (url_with u suffix)
  ∧ ∀ (A : Type) (get : string → Headers → reply A),
      async_get get self' (Some endpoint) suffix
      = get_json (get (url_with u suffix) (headers self')).
Proof.
  intros Hconnect Hname Hu.
  destruct (async_connect_ok _ _ _ Hconnect) as (Hlisting & _ & _).
  pose proof (request_url_named self' endpoint suffix u Hname Hu) as Hurl.
  repeat split; [done..|].
  intros A get. unfold async_get. by rewrite Hurl.
Qed.

Lemma connect_then_get_uses_stored_url_witness :
  let self := BabyBuddyClient_init "http://babybuddy" 8000 "key" in
  let listing : gmap string string :=
    {[ "children" := "http://babybuddy:8000/api/children/" ]} in
  request_url (set_endpoints self listing) (Some "children")
    (Some "?child=1&limit=1")
  = Ok "http://babybuddy:8000/api/children/?child=1&limit=1".
Proof.
  intros self listing.
  refine (proj1 (proj2 (connect_then_get_uses_stored_url
            (root_session 200 listing) self (set_endpoints self listing)
            "children" "http://babybuddy:8000/api/children/"
            (Some "?child=1&limit=1") _ _ _))).
  - reflexivity.
  - discriminate.
  - reflexivity.
Defined.

(** C6: when the request times out the handler logs the exception, and
    the status check that follows the [try] then reads the unbound
    [resp]: POST, PATCH and DELETE all raise. *)
Theorem write_after_timeout_raises :
  let self :=
    set_endpoints (BabyBuddyClient_init "http://babybuddy" 8000 "key")
      {[ "children" := "http://babybuddy:8000/api/children/" ]} in
  let data : payload := {[ "first_name" := "A" ]} in
  async_post timeout_session self "children" data
    = ([LogPostData data; LogError TimeoutError],
       Raise (UnboundLocalError "resp"))
  ∧ async_patch timeout_session self "children" "1" data
    = ([LogError TimeoutError], Raise (UnboundLocalError "resp"))
  ∧ async_delete timeout_session self "children" "1"
    = ([LogError TimeoutError], Raise (UnboundLocalError "resp")).
Proof. repeat split. Qed.

(** The other half of the contract holds: a response with an unexpected
    status is logged and the call returns. *)
Lemma async_post_unexpected_status session self endpoint data u status error :
  endpoints self !! endpoint = Some u →
  session_post session u (headers self) data = Response status error →
  status ≠ HTTP_CREATED →
  async_post session self endpoint data
  = ([LogPostData data; LogCouldNotCreate endpoint error], Ok ()).
Proof.
  intros Hu Hreply Hstatus. unfold async_post. rewrite Hu, Hreply. simpl.
  by rewrite bool_decide_eq_true_2.
Qed.

(** * Properties of the coordinator *)

(** ** Loops *)

(** A relation between worlds that every run of the body respects,
    whether it returns or raises, is respected by the loop. *)
Lemma for_each_world {A S} (R : World → World → Prop) (body : A → S → M S)
    (todo : list A) :
  (∀ w, R w w) →
  (∀ w1 w2 w3, R w1 w2 → R w2 w3 → R w1 w3) →
  (∀ a s w w' r, a ∈ todo → body a s w = (w', r) → R w w') →
  ∀ s w w' r, for_each body todo s w = (w', r) → R w w'.
Proof.
  intros Hrefl Htrans.
  induction todo as [|a todo IH]; intros Hbody s w w' r; simpl.
  - intros [= <- _]. apply Hrefl.
  - unfold bind. destruct (body a s w) as [w1 [s1|e]] eqn:Hstep.
    + intros Hrest. apply (Htrans _ w1).
      * eapply Hbody; [left|done].
      * eapply IH; [|done]. intros; eapply Hbody; [by right|done].
    + intros [= <- _]. eapply Hbody; [left|done].
Qed.

(** An invariant of the body is an invariant of the loop. *)
Lemma for_each_inv {A S} (I : World → S → Prop) (body : A → S → M S)
    (todo : list A) :
  (∀ a s w w' s', a ∈ todo → I w s → body a s w = (w', Ok s') → I w' s') →
  ∀ s w w' s', I w s → for_each body todo s w = (w', Ok s') → I w' s'.
Proof.
  induction todo as [|a todo IH]; intros Hbody s w w' s' HI; simpl.
  - by intros [= <- <-].
  - unfold bind. destruct (body a s w) as [w1 [s1|e]] eqn:Hstep; [|done].
    apply IH.
    + intros; eapply Hbody; [by right|done..].
    + eapply Hbody; [left|done..].
Qed.

(** When the body returns from every state the loop can reach, the loop
    returns; [J done] holds once the items [done] have been processed. *)
Lemma for_each_total {A S} (J : list A → World → S → Prop)
    (body : A → S → M S) (todo : list A) :
  (∀ done a rest s w, todo = done ++ a :: rest → J done w s →
     ∃ w' s', body a s w = (w', Ok s') ∧ J (done ++ [a]) w' s') →
  ∀ s w, J [] w s →
    ∃ w' s', for_each body todo s w = (w', Ok s') ∧ J todo w' s'.
Proof.
  intros Hbody.
  enough (∀ rest done, todo = done ++ rest → ∀ s w, J done w s →
            ∃ w' s', for_each body rest s w = (w', Ok s') ∧ J todo w' s')
    as Hgen by (intros s w; by apply (Hgen todo [])).
  induction rest as [|a rest IH]; intros done Htodo s w HJ; simpl.
  - rewrite app_nil_r in Htodo. subst done. by exists w, s.
  - destruct (Hbody done a rest s w Htodo HJ) as (w1 & s1 & Hstep & HJ1).
    unfold bind. rewrite Hstep.
    apply (IH (done ++ [a])); [|done]. by rewrite <- app_assoc.
Qed.

Section CoordinatorProperties.

Variable ATTR_CHILDREN : string.
Variable SENSOR_TYPES : list SensorEntityDescription.
Variable session : ClientSession.

(** ** The children-list fetch *)

Lemma fetch_children_spec (w : World) :
  fetch_children ATTR_CHILDREN session w
  = (w, match children_of ATTR_CHILDREN session w with
        | Ok children_list => Ok children_list
        | Raise (ClientResponseError status) =>
            if bool_decide (status = HTTP_FORBIDDEN)
            then Raise ConfigEntryAuthFailed else Ok empty_dict
        | Raise ((TimeoutError | ClientError _) as err) =>
            Raise (UpdateFailed (Exc err))
        | Raise err => Raise err
        end).
Proof.
  unfold fetch_children, try_except, bind, self_client, lift, children_of.
  destruct (async_get _ _ _ _) as [p|[]]; try reflexivity.
  by case_bool_decide.
Qed.

(** ** Passes that fail before the loop *)

Lemma async_update_forbidden (w : World) :
  children_of ATTR_CHILDREN session w = Raise (ClientResponseError HTTP_FORBIDDEN) →
  async_update ATTR_CHILDREN SENSOR_TYPES session w
  = (w, Raise ConfigEntryAuthFailed).
Proof.
  intros H. unfold async_update, bind.
  by rewrite fetch_children_spec, H.
Qed.

Lemma async_update_transport (w : World) (err : exn) :
  children_of ATTR_CHILDREN session w = Raise err →
  err = TimeoutError ∨ (∃ detail, err = ClientError detail) →
  async_update ATTR_CHILDREN SENSOR_TYPES session w
  = (w, Raise (UpdateFailed (Exc err))).
Proof.
  intros H Herr. unfold async_update, bind.
  rewrite fetch_children_spec, H.
  by destruct Herr as [->|[detail ->]].
Qed.

Lemma async_update_no_children (w : World) (children_list : page Child) :
  children_of ATTR_CHILDREN session w = Ok children_list →
  count children_list = Some 0 →
  async_update ATTR_CHILDREN SENSOR_TYPES session w
  = (w, Raise (UpdateFailed (Text no_children))).
Proof.
  intros H Hcount. unfold async_update, bind.
  by rewrite fetch_children_spec, H, Hcount.
Qed.

Lemma async_update_http_error (w : World) (status : Z) :
  children_of ATTR_CHILDREN session w = Raise (ClientResponseError status) →
  status ≠ HTTP_FORBIDDEN →
  async_update ATTR_CHILDREN SENSOR_TYPES session w
  = (w, Raise (KeyError ATTR_COUNT)).
Proof.
  intros H Hstatus. unfold async_update, bind.
  rewrite fetch_children_spec, H.
  by rewrite bool_decide_eq_false_2.
Qed.

(** ** What the loops leave alone *)

Lemma logs_only_refl w : logs_only w w.
Proof. by repeat split. Qed.

Lemma logs_only_trans w1 w2 w3 :
  logs_only w1 w2 → logs_only w2 w3 → logs_only w1 w3.
Proof. intros (?&?&?) (?&?&?). repeat split; congruence. Qed.

Lemma grows_refl X w : grows X w w.
Proof. repeat split; auto. Qed.

Lemma grows_trans X w1 w2 w3 : grows X w1 w2 → grows X w2 w3 → grows X w1 w3.
Proof.
  intros (?&?&?&?&?&H12) (?&?&?&?&?&H23).
  repeat split; try congruence; [by etrans|].
  intros i Hi. destruct (H23 i Hi) as [?|?]; auto.
Qed.

Lemma logs_only_grows X w w' : logs_only w w' → grows X w w'.
Proof. intros (Hc&?&?). unfold grows. rewrite Hc. repeat split; auto. Qed.

Lemma grows_mono X Y w w' : X ⊆ Y → grows X w w' → grows Y w w'.
Proof.
  intros HXY (?&?&?&?&?&H). repeat split; try done.
  intros i Hi. destruct (H i Hi); auto.
Qed.

(** ** The per-endpoint fetch *)

Lemma fetch_latest_spec child endpoint w w' r :
  fetch_latest session child endpoint w = (w', r) →
  logs_only w w'
  ∧ match r with
    | Ok (Some endpoint_data) =>
        latest_of session (client (coordinator w)) (child_id child) (key endpoint)
        = Ok endpoint_data
    | Ok None | Raise _ =>
        ∃ err, latest_of session (client (coordinator w)) (child_id child)
                 (key endpoint) = Raise err
    end.
Proof.
  unfold fetch_latest, try_except, bind, self_client, lift, ret, log, raise,
    latest_of.
  destruct (async_get _ _ _ _) as [p|err].
  - intros [= <- <-]. split; [apply logs_only_refl|done].
  - destruct err; intros [= <- <-]; (split; [by repeat split|eauto]).
Qed.

Lemma fetch_latest_ok child endpoint w endpoint_data :
  latest_of session (client (coordinator w)) (child_id child) (key endpoint)
  = Ok endpoint_data →
  fetch_latest session child endpoint w = (w, Ok (Some endpoint_data)).
Proof.
  unfold fetch_latest, try_except, bind, self_client, lift, ret, latest_of.
  by intros ->.
Qed.

(** The body either leaves [child_data] alone or stores the head of the
    results it fetched under the child's existing entry. *)
Lemma endpoint_body_spec child endpoint s w w' r :
  endpoint_body session child endpoint s w = (w', r) →
  logs_only w w'
  ∧ ∀ s', r = Ok s' →
      s' = s
      ∨ ∃ endpoint_data data latest,
          latest_of session (client (coordinator w)) (child_id child) (key endpoint)
          = Ok endpoint_data
          ∧ results endpoint_data = Some data
          ∧ s !! child_id child = Some latest
          ∧ s' = <[child_id child :=
                     <[key endpoint := first_or_empty data]> latest]> s.
Proof.
  unfold endpoint_body, bind.
  destruct (fetch_latest _ _ _ _) as [w1 r1] eqn:Hfetch.
  apply fetch_latest_spec in Hfetch as [Hlogs Hr1].
  destruct r1 as [[endpoint_data|]|err].
  - unfold lift, getitem, setitem.
    destruct (results endpoint_data) as [data|] eqn:Hdata; simpl.
    + destruct (s !! child_id child) as [latest|] eqn:Hs;
        intros [= <- <-]; (split; [done|]); intros s' Hs'; [|done].
      injection Hs' as <-. right. by exists endpoint_data, data, latest.
    + intros [= <- <-]. by split.
  - intros [= <- <-]. split; [done|]. intros s' [= <-]. by left.
  - intros [= <- <-]. by split.
Qed.

Lemma endpoint_body_ok child endpoint s w endpoint_data data latest :
  latest_of session (client (coordinator w)) (child_id child) (key endpoint)
  = Ok endpoint_data →
  results endpoint_data = Some data →
  s !! child_id child = Some latest →
  endpoint_body session child endpoint s w
  = (w, Ok (<[child_id child :=
                <[key endpoint := first_or_empty data]> latest]> s)).
Proof.
  intros Hfetch Hdata Hs. unfold endpoint_body, bind.
  rewrite (fetch_latest_ok _ _ _ _ Hfetch).
  unfold lift, getitem, setitem. by rewrite Hdata, Hs.
Qed.

Lemma remember_child_spec child w w' r :
  remember_child child w = (w', r) →
  r = Ok () ∧ grows [child_id child] w w'
  ∧ child_id child ∈ child_ids (coordinator w').
Proof.
  unfold remember_child. case_bool_decide as Hin.
  - intros [= <- <-]. split; [done|]. split.
    + repeat split; simpl; [by apply prefix_app_r|].
      intros i [?|Hi]%elem_of_app; auto.
    + simpl. apply elem_of_app. right. by left.
  - intros [= <- <-]. split; [done|]. split; [apply grows_refl|].
    exact Hin.
Qed.

Lemma for_endpoints_logs_only child todo s w w' r :
  for_each (endpoint_body session child) todo s w = (w', r) →
  logs_only w w'.
Proof.
  apply (for_each_world logs_only);
    [apply logs_only_refl | apply logs_only_trans |].
  intros a s0 w0 w0' r0 _ Hstep. by apply endpoint_body_spec in Hstep as [? _].
Qed.

Lemma child_body_grows child s w w' r :
  child_body SENSOR_TYPES session child s w = (w', r) →
  grows [child_id child] w w'.
Proof.
  unfold child_body, bind.
  destruct (remember_child child w) as [w1 r1] eqn:Hremember.
  apply remember_child_spec in Hremember as (-> & Hgrows & _).
  intros Hloop%for_endpoints_logs_only.
  eapply grows_trans; [done|]. by apply logs_only_grows.
Qed.

Lemma for_children_grows todo s w w' r :
  for_each (child_body SENSOR_TYPES session) todo s w = (w', r) →
  grows (child_id <$> todo) w w'.
Proof.
  apply (for_each_world (grows (child_id <$> todo)));
    [apply grows_refl | apply grows_trans |].
  intros child s0 w0 w0' r0 Hchild Hstep%child_body_grows.
  eapply grows_mono; [|done].
  intros i Hi%list_elem_of_singleton. subst i. by apply list_elem_of_fmap_2.
Qed.

(** ** What the loops store *)

Lemma entry_empty i k : entry ∅ i k = None.
Proof. unfold entry. by rewrite lookup_empty. Qed.

Lemma entry_store (s : snapshot) i latest k v i' k' :
  s !! i = Some latest →
  entry (<[i := <[k := v]> latest]> s) i' k'
  = if decide (i' = i ∧ k' = k) then Some v else entry s i' k'.
Proof.
  intros Hs. unfold entry. destruct (decide (i' = i)) as [->|Hi].
  - rewrite lookup_insert_eq, Hs. simpl.
    destruct (decide (k' = k)) as [->|Hk].
    + rewrite lookup_insert_eq. by rewrite decide_True.
    + rewrite lookup_insert_ne by done. rewrite decide_False; [done|]. tauto.
  - rewrite lookup_insert_ne by done. rewrite decide_False; [done|]. tauto.
Qed.

Lemma entry_setdefault (s : snapshot) i i' k' :
  entry (setdefault s i) i' k' = entry s i' k'.
Proof.
  unfold setdefault, entry. destruct (s !! i) eqn:Hs; [done|].
  destruct (decide (i' = i)) as [->|Hi].
  - by rewrite lookup_insert_eq, Hs.
  - by rewrite lookup_insert_ne.
Qed.

Lemma dom_setdefault (s : snapshot) i : dom (setdefault s i) = {[i]} ∪ dom s.
Proof.
  unfold setdefault. destruct (s !! i) eqn:Hs.
  - apply (elem_of_dom_2 s) in Hs. symmetry.
    by apply subseteq_union_1_L, singleton_subseteq_l.
  - by rewrite dom_insert_L.
Qed.

Lemma faithful_empty c : faithful session c ∅.
Proof. intros i k v. by rewrite entry_empty. Qed.

Lemma faithful_setdefault c s i : faithful session c s → faithful session c (setdefault s i).
Proof. intros Hs i' k v. rewrite entry_setdefault. apply Hs. Qed.

Lemma endpoint_body_faithful c child endpoint s w w' s' :
  client (coordinator w) = c →
  faithful session c s →
  endpoint_body session child endpoint s w = (w', Ok s') →
  client (coordinator w') = c ∧ faithful session c s'.
Proof.
  intros Hc Hs Hstep.
  apply endpoint_body_spec in Hstep as [(Hco & _) Hs'].
  split; [by rewrite Hco|].
  destruct (Hs' s' eq_refl) as [->|(p & data & latest & Hp & Hdata & Hl & ->)];
    [done|].
  intros i k v. rewrite (entry_store _ _ _ _ _ _ _ Hl).
  case_decide as Hik; [|apply Hs].
  destruct Hik as [-> ->]. intros [= <-]. exists p, data. by rewrite <- Hc.
Qed.

Lemma for_endpoints_faithful c child todo s w w' s' :
  client (coordinator w) = c →
  faithful session c s →
  for_each (endpoint_body session child) todo s w = (w', Ok s') →
  client (coordinator w') = c ∧ faithful session c s'.
Proof.
  intros Hc Hs.
  apply (for_each_inv (λ w s, client (coordinator w) = c ∧ faithful session c s));
    [|done].
  intros e s0 w0 w0' s0' _ [Hc0 Hs0]. by apply endpoint_body_faithful.
Qed.

Lemma child_body_faithful c child s w w' s' :
  client (coordinator w) = c →
  faithful session c s →
  child_body SENSOR_TYPES session child s w = (w', Ok s') →
  client (coordinator w') = c ∧ faithful session c s'.
Proof.
  intros Hc Hs. unfold child_body, bind.
  destruct (remember_child child w) as [w1 r1] eqn:Hremember.
  apply remember_child_spec in Hremember as (-> & (Hc1 & _) & _).
  apply for_endpoints_faithful; [congruence|]. by apply faithful_setdefault.
Qed.

Lemma for_children_faithful todo w w' s' :
  for_each (child_body SENSOR_TYPES session) todo ∅ w = (w', Ok s') →
  faithful session (client (coordinator w)) s'.
Proof.
  intros Hloop.
  eapply (for_each_inv
            (λ w0 s, client (coordinator w0) = client (coordinator w)
                     ∧ faithful session (client (coordinator w)) s)); [| |done].
  - intros child s0 w0 w0' s0' _ [Hc0 Hs0]. by apply child_body_faithful.
  - split; [done|apply faithful_empty].
Qed.

(** ** Passes in which every fetch succeeds *)

Lemma entry_store_is_Some (s : snapshot) i latest k v i' k' :
  s !! i = Some latest →
  is_Some (entry s i' k') →
  is_Some (entry (<[i := <[k := v]> latest]> s) i' k').
Proof.
  intros Hs Hold. rewrite (entry_store _ _ _ _ _ _ _ Hs).
  by case_decide.
Qed.

Lemma entry_store_eq (s : snapshot) i latest k v :
  s !! i = Some latest →
  entry (<[i := <[k := v]> latest]> s) i k = Some v.
Proof.
  intros Hs. rewrite (entry_store _ _ _ _ _ _ _ Hs). by rewrite decide_True.
Qed.

Lemma for_endpoints_total c child todo s0 w :
  client (coordinator w) = c →
  child_id child ∈ dom s0 →
  (∀ e, e ∈ todo →
     ∃ endpoint_data data,
       latest_of session c (child_id child) (key e) = Ok endpoint_data
       ∧ results endpoint_data = Some data) →
  ∃ w' s',
    for_each (endpoint_body session child) todo s0 w = (w', Ok s')
    ∧ dom s' = dom s0
    ∧ (∀ i k, is_Some (entry s0 i k) → is_Some (entry s' i k))
    ∧ ∀ e, e ∈ todo → is_Some (entry s' (child_id child) (key e)).
Proof.
  intros Hc Hdom Hfetch.
  destruct (for_each_total
    (λ done w1 s,
       client (coordinator w1) = c
       ∧ dom s = dom s0
       ∧ (∀ i k, is_Some (entry s0 i k) → is_Some (entry s i k))
       ∧ ∀ e, e ∈ done → is_Some (entry s (child_id child) (key e)))
    (endpoint_body session child) todo) with s0 w
    as (w' & s' & Hloop & _ & Hdom' & Hmono & Hstored).
  - intros done a rest s w1 Htodo (Hc1 & Hdom1 & Hmono1 & Hdone).
    destruct (Hfetch a) as (p & data & Hp & Hdata).
    { rewrite Htodo. apply elem_of_app. right. left. }
    assert (is_Some (s !! child_id child)) as [latest Hlatest].
    { apply elem_of_dom. by rewrite Hdom1. }
    rewrite <- Hc1 in Hp.
    eexists w1, _. split; [by apply (endpoint_body_ok _ _ _ _ p data latest)|].
    split; [done|]. split.
    { rewrite dom_insert_L, <- Hdom1.
      apply (elem_of_dom_2 s) in Hlatest.
      by apply subseteq_union_1_L, singleton_subseteq_l. }
    split.
    + intros i k Hik. by apply entry_store_is_Some, Hmono1.
    + intros e [He|He%list_elem_of_singleton]%elem_of_app.
      * by apply entry_store_is_Some, Hdone.
      * subst e. by rewrite entry_store_eq.
  - do 3 (split; [done|]). by intros e ?%elem_of_nil.
  - by exists w', s'.
Qed.

Lemma for_children_total w children :
  (∀ child e, child ∈ children → e ∈ SENSOR_TYPES →
     ∃ endpoint_data data,
       latest_of session (client (coordinator w)) (child_id child) (key e)
       = Ok endpoint_data
       ∧ results endpoint_data = Some data) →
  ∃ w' s',
    for_each (child_body SENSOR_TYPES session) children ∅ w = (w', Ok s')
    ∧ dom s' = (list_to_set (child_id <$> children) : gset Z)
    ∧ ∀ child e, child ∈ children → e ∈ SENSOR_TYPES →
        is_Some (entry s' (child_id child) (key e)).
Proof.
  intros Hfetch.
  destruct (for_each_total
    (λ done w1 (s : snapshot),
       client (coordinator w1) = client (coordinator w)
       ∧ dom s = (list_to_set (child_id <$> done) : gset Z)
       ∧ ∀ child e, child ∈ done → e ∈ SENSOR_TYPES →
           is_Some (entry s (child_id child) (key e)))
    (child_body SENSOR_TYPES session) children) with (∅ : snapshot) w
    as (w' & s' & Hloop & _ & Hdom & Hstored).
  - intros done a rest s w1 Htodo (Hc1 & Hdom1 & Hdone).
    assert (a ∈ children) as Ha.
    { rewrite Htodo. apply elem_of_app. right. left. }
    unfold child_body, bind.
    destruct (remember_child a w1) as [w2 r2] eqn:Hremember.
    apply remember_child_spec in Hremember as (-> & (Hc2 & _) & _).
    destruct (for_endpoints_total (client (coordinator w)) a SENSOR_TYPES
                (setdefault s (child_id a)) w2)
      as (w3 & s3 & Hloop & Hdom3 & Hmono & Hstored); [congruence| |by eauto|].
    { rewrite dom_setdefault. by apply elem_of_union_l, elem_of_singleton. }
    exists w3, s3. split; [done|].
    apply for_endpoints_logs_only in Hloop as (Hco & _).
    split; [by rewrite Hco, Hc2|]. split.
    + rewrite Hdom3, dom_setdefault, Hdom1, fmap_app, list_to_set_app_L.
      simpl. rewrite union_empty_r_L. apply union_comm_L.
    + intros child e [Hchild|Hchild%list_elem_of_singleton]%elem_of_app He.
      * apply Hmono. rewrite entry_setdefault. by apply Hdone.
      * subst child. by apply Hstored.
  - split; [done|]. split; [by rewrite dom_empty_L|].
    by intros child e ?%elem_of_nil.
  - by exists w', s'.
Qed.

(** ** Device reconciliation *)

Lemma remove_devices_spec ids l (dr dr' : DeviceRegistry) r :
  remove_devices ids l dr = (dr', r) →
  (∀ k d, dr' !! k = Some d → dr !! k = Some d)
  ∧ (∀ k, is_Some (dr !! k) → dr' !! k = None →
       ∃ d0 i, (k, d0) ∈ l ∧ child_of d0 = Some i ∧ i ∉ ids)
  ∧ (r = Ok () → ∀ k d0 i,
       (k, d0) ∈ l → child_of d0 = Some i → i ∉ ids → dr' !! k = None)
  ∧ ((∀ k d0, (k, d0) ∈ l → identifiers d0 ≠ []) → r = Ok ()).
Proof.
  revert dr. induction l as [|[k0 d0] l IH]; intros dr; simpl.
  - intros [= <- <-]. split; [done|].
    split; [intros k [d Hd] Hnone; congruence|].
    split; [|done]. intros _ k d0 i Hin. by apply elem_of_nil in Hin.
  - destruct (identifiers d0) as [|[domain i0] others] eqn:Hident.
    + intros [= <- <-]. split; [done|].
      split; [intros k [d Hd] Hnone; congruence|].
      split; [done|]. intros Hall. exfalso. eapply Hall; [left|done].
    + assert (child_of d0 = Some i0) as Hchild
        by (unfold child_of; by rewrite Hident).
      simpl. case_bool_decide as Hi0; intros Hrest;
        apply IH in Hrest as (Hsub & Hgone & Hall & Htotal).
      * unfold async_remove_device in *. split.
        { intros k d Hk. apply Hsub in Hk.
          by apply lookup_delete_Some in Hk as [_ ?]. }
        split.
        { intros k Hk Hnone. destruct (decide (k = k0)) as [->|Hne].
          - exists d0, i0. split; [left|done].
          - destruct (Hgone k) as (d1 & i & Hin & Hd1);
              [by rewrite lookup_delete_ne|done|].
            exists d1, i. split; [by right|done]. }
        split.
        { intros Hr k d1 i Hin Hd1 Hi.
          apply elem_of_cons in Hin as [Hhead|Hin]; [|by eapply Hall].
          injection Hhead as -> ->.
          destruct (dr' !! k0) eqn:Hk; [|done].
          apply Hsub in Hk. by rewrite lookup_delete_eq in Hk. }
        intros Hids. apply Htotal. intros; eapply Hids; by right.
      * split; [done|]. split.
        { intros k Hk Hnone.
          destruct (Hgone k Hk Hnone) as (d1 & i & Hin & Hd1).
          exists d1, i. split; [by right|done]. }
        split.
        { intros Hr k d1 i Hin Hd1 Hi.
          apply elem_of_cons in Hin as [Hhead|Hin]; [|by eapply Hall].
          injection Hhead as -> ->. congruence. }
        intros Hids. apply Htotal. intros; eapply Hids; by right.
Qed.

Lemma elem_of_entries (dr : DeviceRegistry) config_entry_id device_id device :
  (device_id, device) ∈ async_entries_for_config_entry dr config_entry_id
  ↔ dr !! device_id = Some device ∧ config_entry_id ∈ config_entries device.
Proof.
  unfold async_entries_for_config_entry.
  rewrite list_elem_of_filter, elem_of_map_to_list. simpl. tauto.
Qed.

(** Reconciliation touches the registry only; it never adds a device,
    never removes one that is not [unknown], and when it returns it has
    removed all that are. *)
Lemma async_remove_deleted_childs_spec w w' r :
  async_remove_deleted_childs w = (w', r) →
  coordinator w' = coordinator w
  ∧ services w' = services w
  ∧ logger w' = logger w
  ∧ (∀ k d, registry w' !! k = Some d → registry w !! k = Some d)
  ∧ (∀ k d, registry w !! k = Some d → ¬ unknown (coordinator w) d →
       registry w' !! k = Some d)
  ∧ (r = Ok () → ∀ k d, registry w' !! k = Some d →
       ¬ unknown (coordinator w) d)
  ∧ (identified w → r = Ok ()).
Proof.
  unfold async_remove_deleted_childs.
  destruct (remove_devices _ _ _) as [dr' r'] eqn:Hloop.
  intros [= <- <-]. simpl.
  apply remove_devices_spec in Hloop as (Hsub & Hgone & Hall & Htotal).
  do 4 (split; [done|]). split; [|split].
  - intros k d Hk Hknown. destruct (dr' !! k) as [d'|] eqn:Hk'.
    + apply Hsub in Hk'. congruence.
    + destruct (Hgone k) as (d0 & i & [Hd0 Hentry]%elem_of_entries & Hi);
        [done..|].
      destruct Hknown. split; [congruence|]. exists i.
      by replace d with d0 by congruence.
  - intros Hr k d Hk' (Hentry & i & Hi & Hnew).
    pose proof (Hsub _ _ Hk') as Hk.
    rewrite (Hall Hr k d i) in Hk'; [done| |done..].
    by apply elem_of_entries.
  - intros Hids. apply Htotal.
    intros k d0 [Hd0 Hentry]%elem_of_entries. by eapply Hids.
Qed.

(** ** The whole pass *)

Lemma async_update_ok_inv w w' children child_data :
  async_update ATTR_CHILDREN SENSOR_TYPES session w
  = (w', Ok (children, child_data)) →
  ∃ children_list n w1,
    children_of ATTR_CHILDREN session w = Ok children_list
    ∧ count children_list = Some n ∧ n ≠ 0
    ∧ results children_list = Some children
    ∧ for_each (child_body SENSOR_TYPES session) children ∅ w
      = (w1, Ok child_data)
    ∧ async_remove_deleted_childs w1 = (w', Ok ()).
Proof.
  unfold async_update, bind. rewrite fetch_children_spec.
  destruct (children_of ATTR_CHILDREN session w) as [p|err] eqn:Hfetch.
  - unfold lift, getitem.
    destruct (count p) as [n|] eqn:Hcount; [|done].
    case_bool_decide as Hn; [done|].
    destruct (results p) as [cs|] eqn:Hresults; [|done].
    destruct (for_each _ cs ∅ w) as [w1 [s|e]] eqn:Hloop; [|done].
    destruct (async_remove_deleted_childs w1) as [w2 [[]|e]] eqn:Hremove;
      [|done].
    intros [= <- <- <-]. by exists p, n, w1.
  - destruct err; try done. by case_bool_decide.
Qed.

Lemma async_update_ok w w1 w' children_list n children child_data :
  children_of ATTR_CHILDREN session w = Ok children_list →
  count children_list = Some n → n ≠ 0 →
  results children_list = Some children →
  for_each (child_body SENSOR_TYPES session) children ∅ w
  = (w1, Ok child_data) →
  async_remove_deleted_childs w1 = (w', Ok ()) →
  async_update ATTR_CHILDREN SENSOR_TYPES session w
  = (w', Ok (children, child_data)).
Proof.
  intros Hfetch Hcount Hn Hresults Hloop Hremove.
  unfold async_update, bind. rewrite fetch_children_spec, Hfetch.
  unfold lift, getitem. rewrite Hcount, bool_decide_eq_false_2 by done.
  by rewrite Hresults, Hloop, Hremove.
Qed.

(** Whatever the outcome, a pass leaves the client alone and extends
    the known identifiers by children of the list it fetched. *)
Lemma async_update_child_ids w w' r :
  async_update ATTR_CHILDREN SENSOR_TYPES session w = (w', r) →
  client (coordinator w') = client (coordinator w)
  ∧ entry_id (coordinator w') = entry_id (coordinator w)
  ∧ child_ids (coordinator w) `prefix_of` child_ids (coordinator w')
  ∧ ∀ i, i ∈ child_ids (coordinator w') →
      i ∈ child_ids (coordinator w)
      ∨ ∃ children_list children,
          children_of ATTR_CHILDREN session w = Ok children_list
          ∧ results children_list = Some children
          ∧ i ∈ child_id <$> children.
Proof.
  assert (∀ r0, (w, r0) = (w', r) →
    client (coordinator w') = client (coordinator w)
    ∧ entry_id (coordinator w') = entry_id (coordinator w)
    ∧ child_ids (coordinator w) `prefix_of` child_ids (coordinator w')
    ∧ ∀ i, i ∈ child_ids (coordinator w') →
        i ∈ child_ids (coordinator w)
        ∨ ∃ children_list children,
            children_of ATTR_CHILDREN session w = Ok children_list
            ∧ results children_list = Some children
            ∧ i ∈ child_id <$> children) as Hsame.
  { intros r0 [= <- _]. repeat split; auto. }
  unfold async_update, bind. rewrite fetch_children_spec.
  destruct (children_of ATTR_CHILDREN session w) as [p|err] eqn:Hfetch.
  - unfold lift, getitem.
    destruct (count p) as [n|] eqn:Hcount; [|apply Hsame].
    case_bool_decide as Hn; [apply Hsame|].
    destruct (results p) as [cs|] eqn:Hresults; [|apply Hsame].
    destruct (for_each _ cs ∅ w) as [w1 r1] eqn:Hloop.
    apply for_children_grows in Hloop as (Hc & He & _ & _ & Hprefix & Hnew).
    intros Hrun. assert (coordinator w' = coordinator w1) as ->.
    { destruct r1 as [s|e]; [|by injection Hrun as <- _].
      destruct (async_remove_deleted_childs w1) as [w2 r2] eqn:Hremove.
      apply async_remove_deleted_childs_spec in Hremove as (Hco & _).
      destruct r2 as [[]|e]; by injection Hrun as <- _. }
    do 3 (split; [done|]).
    intros i Hi. destruct (Hnew i Hi) as [?|?]; [by left|right].
    by exists p, cs.
  - destruct err; try apply Hsame. case_bool_decide; apply Hsame.
Qed.

Lemma for_children_identified todo s w w' r :
  for_each (child_body SENSOR_TYPES session) todo s w = (w', r) →
  identified w → identified w'.
Proof.
  intros (_ & Hentry & Hregistry & _)%for_children_grows Hw k d.
  rewrite Hregistry, Hentry. apply Hw.
Qed.

(** When the list is not empty and every fetch succeeds, the pass
    returns as soon as reconciliation does. *)
Lemma async_update_total w children_list n children :
  children_of ATTR_CHILDREN session w = Ok children_list →
  count children_list = Some n → n ≠ 0 →
  results children_list = Some children →
  (∀ child e, child ∈ children → e ∈ SENSOR_TYPES →
     ∃ endpoint_data data,
       latest_of session (client (coordinator w)) (child_id child) (key e)
       = Ok endpoint_data
       ∧ results endpoint_data = Some data) →
  identified w →
  ∃ w' child_data,
    async_update ATTR_CHILDREN SENSOR_TYPES session w
    = (w', Ok (children, child_data)).
Proof.
  intros Hfetch Hcount Hn Hresults Hall Hw.
  destruct (for_children_total w children Hall) as (w1 & s & Hloop & _).
  destruct (async_remove_deleted_childs w1) as [w' r] eqn:Hremove.
  pose proof Hremove as (_ & _ & _ & _ & _ & _ & Hr)%async_remove_deleted_childs_spec.
  rewrite Hr in Hremove by (by eapply for_children_identified).
  exists w', s. by eapply async_update_ok.
Qed.

(** What such a pass returns. *)
Lemma async_update_snapshot w w' children_list children result :
  children_of ATTR_CHILDREN session w = Ok children_list →
  results children_list = Some children →
  (∀ child e, child ∈ children → e ∈ SENSOR_TYPES →
     ∃ endpoint_data data,
       latest_of session (client (coordinator w)) (child_id child) (key e)
       = Ok endpoint_data
       ∧ results endpoint_data = Some data) →
  async_update ATTR_CHILDREN SENSOR_TYPES session w = (w', Ok result) →
  result.1 = children
  ∧ dom result.2 = (list_to_set (child_id <$> children) : gset Z)
  ∧ ∀ child e endpoint_data,
      child ∈ children → e ∈ SENSOR_TYPES →
      latest_of session (client (coordinator w)) (child_id child) (key e)
      = Ok endpoint_data →
      results endpoint_data = Some [] →
      entry result.2 (child_id child) (key e) = Some ∅.
Proof.
  intros Hfetch Hresults Hall Hrun.
  destruct result as [children' child_data].
  apply async_update_ok_inv in Hrun
    as (p & n' & w1 & Hfetch' & _ & _ & Hresults' & Hloop & _).
  assert (children' = children) as -> by congruence.
  destruct (for_children_total w children Hall)
    as (w2 & s & Hloop' & Hdom & Hstored).
  assert (s = child_data) as -> by congruence.
  pose proof (for_children_faithful _ _ _ _ Hloop) as Hfaithful.
  do 2 (split; [done|]). simpl.
  intros child e endpoint_data Hchild He Hlatest Hempty.
  destruct (Hstored child e Hchild He) as [v Hv]. rewrite Hv.
  destruct (Hfaithful _ _ _ Hv) as (p' & data & Hp' & Hdata & ->).
  assert (data = []) as -> by congruence. done.
Qed.

(** An entry of the snapshot a pass returns was fetched in that pass. *)
Lemma async_update_faithful w w' children child_data :
  async_update ATTR_CHILDREN SENSOR_TYPES session w
  = (w', Ok (children, child_data)) →
  faithful session (client (coordinator w)) child_data.
Proof.
  intros (_ & _ & w1 & _ & _ & _ & _ & Hloop & _)%async_update_ok_inv.
  by eapply for_children_faithful.
Qed.

(** A pass that returns has kept every device whose child is among the
    identifiers known at its end, whatever it fetched for that child. *)
Lemma async_update_keeps_known w w' children child_data k d i :
  async_update ATTR_CHILDREN SENSOR_TYPES session w
  = (w', Ok (children, child_data)) →
  registry w !! k = Some d →
  child_of d = Some i →
  i ∈ child_ids (coordinator w') →
  registry w' !! k = Some d.
Proof.
  intros (_ & _ & w1 & _ & _ & _ & _ & Hloop & Hremove)%async_update_ok_inv
    Hk Hchild Hi.
  apply for_children_grows in Hloop as (_ & _ & Hregistry & _).
  apply async_remove_deleted_childs_spec in Hremove
    as (Hco & _ & _ & _ & Hkept & _).
  apply Hkept; [by rewrite Hregistry|].
  intros (_ & i' & Hi' & Hnew). rewrite Hco in Hi.
  by replace i' with i in Hnew by congruence.
Qed.

End CoordinatorProperties.

(** * The claims about a refresh pass *)

(** C1: take a pass whose children-list fetch returns a list and in
    which the fetch for every listed child and every endpoint returns a
    body with results.  When the list is not empty (its [count] is not
    0, which is what the code tests) the pass returns as soon as
    reconciliation does, which it does when every device of the entry
    has an identifier.  The snapshot the pass returns has exactly the
    identifiers of the listed children as its keys, and a pair whose
    results are empty is mapped to the empty record.  In the worked
    pass the snapshot is [{1: {"feeding": {}}}]. *)
Theorem snapshot_keys_are_children
    (ATTR_CHILDREN : string) (SENSOR_TYPES : list SensorEntityDescription)
    (session : ClientSession) (w : World)
    (children_list : page Child) (children : list Child) :
  children_of ATTR_CHILDREN session w = Ok children_list →
  results children_list = Some children →
  (∀ child e, child ∈ children → e ∈ SENSOR_TYPES →
     ∃ endpoint_data data,
       latest_of session (client (coordinator w)) (child_id child) (key e)
       = Ok endpoint_data
       ∧ results endpoint_data = Some data) →
  (∀ n, count children_list = Some n → n ≠ 0 → identified w →
     ∃ w' child_data,
       async_update ATTR_CHILDREN SENSOR_TYPES session w
       = (w', Ok (children, child_data)))
  ∧ (∀ w' result,
       async_update ATTR_CHILDREN SENSOR_TYPES session w = (w', Ok result) →
       result.1 = children
       ∧ dom result.2 = (list_to_set (child_id <$> children) : gset Z)
       ∧ ∀ child e endpoint_data,
           child ∈ children → e ∈ SENSOR_TYPES →
           latest_of session (client (coordinator w)) (child_id child) (key e)
           = Ok endpoint_data →
           results endpoint_data = Some [] →
           entry result.2 (child_id child) (key e) = Some ∅)
  ∧ (async_update "children" [feeding] example_session example_world).2
    = Ok ([example_child], ({[ 1 := {[ "feeding" := ∅ ]} ]} : snapshot)).
Proof.
  intros Hfetch Hresults Hall. split; [|split].
  - intros n Hcount Hn Hw. by eapply async_update_total.
  - intros w' result Hrun. by eapply async_update_snapshot.
  - vm_compute. reflexivity.
Qed.

Lemma snapshot_keys_are_children_witness :
  ∃ w' child_data,
    async_update "children" [feeding] example_session example_world
    = (w', Ok ([example_child], child_data)).
Proof.
  refine (proj1 (snapshot_keys_are_children "children" [feeding]
            example_session example_world one_child [example_child]
            _ _ _) 1 _ _ _).
  - reflexivity.
  - reflexivity.
  - intros child e Hchild He.
    apply list_elem_of_singleton in Hchild as ->.
    apply list_elem_of_singleton in He as ->.
    exists no_results, []. split; reflexivity.
  - reflexivity.
  - discriminate.
  - intros k d Hk. discriminate Hk.
Defined.

(** C2: in a pass that returns, a child and endpoint whose fetch failed
    have no entry in the returned snapshot, whatever the world the pass
    started from held in [data]: the snapshot is what the loop over the
    children builds from the empty mapping, and only a fetch that
    returned stores into it. *)
Theorem failed_fetch_leaves_no_entry
    (ATTR_CHILDREN : string) (SENSOR_TYPES : list SensorEntityDescription)
    (session : ClientSession) (w w' : World)
    (children : list Child) (child_data : snapshot)
    (child : Child) (e : SensorEntityDescription) (err : exn) :
  async_update ATTR_CHILDREN SENSOR_TYPES session w
  = (w', Ok (children, child_data)) →
  child ∈ children → e ∈ SENSOR_TYPES →
  latest_of session (client (coordinator w)) (child_id child) (key e)
  = Raise err →
  entry child_data (child_id child) (key e) = None
  ∧ ∃ w1, for_each (child_body SENSOR_TYPES session) children ∅ w
          = (w1, Ok child_data).
Proof.
  intros Hrun _ _ Hfailed. split.
  - apply async_update_faithful in Hrun as Hfaithful.
    destruct (entry child_data (child_id child) (key e)) as [v|] eqn:Hv;
      [|done].
    destruct (Hfaithful _ _ _ Hv) as (p & data & Hp & _). congruence.
  - apply async_update_ok_inv in Hrun
      as (_ & _ & w1 & _ & _ & _ & _ & Hloop & _).
    by exists w1.
Qed.

Lemma failed_fetch_leaves_no_entry_witness :
  entry ({[ 1 := ∅ ]} : snapshot) 1 "feeding" = None.
Proof.
  pose (session := example_server (Response 200 one_child)
                     (Response 500 empty_dict)).
  refine (proj1 (failed_fetch_leaves_no_entry "children" [feeding] session
            later_world
            (async_update "children" [feeding] session later_world).1
            [example_child] {[ 1 := ∅ ]} example_child feeding
            (ClientResponseError 500) _ _ _ _)).
  - vm_compute. reflexivity.
  - left.
  - left.
  - reflexivity.
Defined.

(** C3: a forbidden response to the children-list fetch ends the pass
    with [ConfigEntryAuthFailed]; a timeout or another transport error
    ends it with [UpdateFailed], which is a different exception. *)
Theorem forbidden_is_auth_failure
    (ATTR_CHILDREN : string) (SENSOR_TYPES : list SensorEntityDescription)
    (session : ClientSession) (w : World) :
  children_of ATTR_CHILDREN session w
  = Raise (ClientResponseError HTTP_FORBIDDEN) →
  async_update ATTR_CHILDREN SENSOR_TYPES session w
  = (w, Raise ConfigEntryAuthFailed)
  ∧ (∀ arg, ConfigEntryAuthFailed ≠ UpdateFailed arg)
  ∧ ∀ session' err,
      children_of ATTR_CHILDREN session' w = Raise err →
      err = TimeoutError ∨ (∃ detail, err = ClientError detail) →
      async_update ATTR_CHILDREN SENSOR_TYPES session' w
      = (w, Raise (UpdateFailed (Exc err))).
Proof.
  intros Hforbidden. split; [by apply async_update_forbidden|].
  split; [done|]. intros session' err. apply async_update_transport.
Qed.

Lemma forbidden_is_auth_failure_witness :
  async_update "children" [feeding]
    (example_server (Response 403 empty_dict) TimedOut) example_world
  = (example_world, Raise ConfigEntryAuthFailed).
Proof.
  refine (proj1 (forbidden_is_auth_failure "children" [feeding]
            (example_server (Response 403 empty_dict) TimedOut)
            example_world _)).
  reflexivity.
Defined.

(** C4: a children list whose [count] is 0 ends the pass with
    [UpdateFailed] carrying the no-children message, which no
    [UpdateFailed] raised for a transport error equals. *)
Theorem zero_count_is_no_children
    (ATTR_CHILDREN : string) (SENSOR_TYPES : list SensorEntityDescription)
    (session : ClientSession) (w : World) (children_list : page Child) :
  children_of ATTR_CHILDREN session w = Ok children_list →
  count children_list = Some 0 →
  async_update ATTR_CHILDREN SENSOR_TYPES session w
  = (w, Raise (UpdateFailed
                 (Text "No children found. Please add at least one child.")))
  ∧ ∀ err,
      UpdateFailed (Text "No children found. Please add at least one child.")
      ≠ UpdateFailed (Exc err).
Proof.
  intros Hfetch Hcount. split; [|done].
  by apply (async_update_no_children _ _ _ _ children_list).
Qed.

Lemma zero_count_is_no_children_witness :
  async_update "children" [feeding]
    (example_server (Response 200 {| count := Some 0; results := Some [] |})
       TimedOut) example_world
  = (example_world,
     Raise (UpdateFailed
              (Text "No children found. Please add at least one child."))).
Proof.
  refine (proj1 (zero_count_is_no_children "children" [feeding]
            (example_server
               (Response 200 {| count := Some 0; results := Some [] |})
               TimedOut)
            example_world {| count := Some 0; results := Some [] |} _ _)).
  - reflexivity.
  - reflexivity.
Defined.

(** C10: an HTTP error other than forbidden on the children-list fetch
    is swallowed by the handler, the children list stays the empty
    dict, and the pass ends in the [KeyError] of reading its count:
    it returns nothing and raises neither [UpdateFailed] nor
    [ConfigEntryAuthFailed]. *)
Theorem http_error_ends_in_key_error
    (ATTR_CHILDREN : string) (SENSOR_TYPES : list SensorEntityDescription)
    (session : ClientSession) (w : World) (status : Z) :
  children_of ATTR_CHILDREN session w = Raise (ClientResponseError status) →
  status ≠ HTTP_FORBIDDEN →
  fetch_children ATTR_CHILDREN session w = (w, Ok empty_dict)
  ∧ async_update ATTR_CHILDREN SENSOR_TYPES session w
    = (w, Raise (KeyError ATTR_COUNT))
  ∧ (∀ arg, KeyError ATTR_COUNT ≠ UpdateFailed arg)
  ∧ KeyError ATTR_COUNT ≠ ConfigEntryAuthFailed.
Proof.
  intros Hfetch Hstatus. split.
  - rewrite fetch_children_spec, Hfetch. by rewrite bool_decide_eq_false_2.
  - split; [by eapply async_update_http_error|done].
Qed.

Lemma http_error_ends_in_key_error_witness :
  async_update "children" [feeding]
    (example_server (Response 500 empty_dict) TimedOut) example_world
  = (example_world, Raise (KeyError "count")).
Proof.
  refine (proj1 (proj2 (http_error_ends_in_key_error "children" [feeding]
            (example_server (Response 500 empty_dict) TimedOut)
            example_world 500 _ _))).
  - reflexivity.
  - discriminate.
Defined.

Lemma async_refresh_child_ids ATTR_CHILDREN SENSOR_TYPES session w :
  child_ids (coordinator w)
    `prefix_of` child_ids
                  (coordinator (async_refresh ATTR_CHILDREN SENSOR_TYPES session w))
  ∧ ∀ i,
      i ∈ child_ids
            (coordinator (async_refresh ATTR_CHILDREN SENSOR_TYPES session w)) →
      i ∈ child_ids (coordinator w)
      ∨ ∃ children_list children,
          children_of ATTR_CHILDREN session w = Ok children_list
          ∧ results children_list = Some children
          ∧ i ∈ child_id <$> children.
Proof.
  unfold async_refresh.
  destruct (async_update ATTR_CHILDREN SENSOR_TYPES session w)
    as [w' r] eqn:Hrun.
  apply async_update_child_ids in Hrun as (_ & _ & Hprefix & Hnew).
  by destruct r.
Qed.

(** C8: over any sequence of refresh passes the known identifiers only
    grow: an identifier present before is present after (the list is
    extended at its end), and what one pass adds are identifiers of
    children in the list that pass fetched. *)
Theorem child_ids_only_grow
    (ATTR_CHILDREN : string) (SENSOR_TYPES : list SensorEntityDescription) :
  (∀ ticks w i,
     i ∈ child_ids (coordinator w) →
     i ∈ child_ids
           (coordinator (refresh_passes ATTR_CHILDREN SENSOR_TYPES ticks w)))
  ∧ (∀ ticks w,
       child_ids (coordinator w)
         `prefix_of` child_ids
           (coordinator (refresh_passes ATTR_CHILDREN SENSOR_TYPES ticks w)))
  ∧ ∀ session w i,
      i ∈ child_ids
            (coordinator (async_refresh ATTR_CHILDREN SENSOR_TYPES session w)) →
      i ∈ child_ids (coordinator w)
      ∨ ∃ children_list children,
          children_of ATTR_CHILDREN session w = Ok children_list
          ∧ results children_list = Some children
          ∧ i ∈ child_id <$> children.
Proof.
  assert (∀ ticks w,
            child_ids (coordinator w)
              `prefix_of` child_ids
                (coordinator (refresh_passes ATTR_CHILDREN SENSOR_TYPES ticks w)))
    as Hprefix.
  { induction ticks as [|session ticks IH]; intros w; simpl; [done|].
    etrans; [|apply IH]. apply async_refresh_child_ids. }
  split; [|split; [done|]].
  - intros ticks w i Hi. destruct (Hprefix ticks w) as [added ->].
    apply elem_of_app. by left.
  - intros session w. apply async_refresh_child_ids.
Qed.

Lemma child_ids_only_grow_witness :
  1 ∈ child_ids
        (coordinator
           (refresh_passes "children" [feeding]
              [example_server (Response 500 empty_dict) TimedOut;
               example_server (Response 200 {| count := Some 1;
                                               results := Some [] |}) TimedOut]
              later_world)).
Proof.
  refine (proj1 (child_ids_only_grow "children" [feeding]) _ later_world 1 _).
  left.
Defined.

(** C9: reconciliation never adds a device and never removes one that
    is of another config entry or whose child is among the known
    identifiers; when it returns (it does when every device of the
    entry has an identifier) the devices left are exactly those that
    were there and are not devices of this entry with an unknown
    child.  It does not look at the snapshot. *)
Theorem reconciliation_removes_exactly_unknown (w w' : World) (r : res unit) :
  async_remove_deleted_childs w = (w', r) →
  (identified w → r = Ok ())
  ∧ (r = Ok () →
       ∀ k d, registry w' !! k = Some d
              ↔ registry w !! k = Some d ∧ ¬ unknown (coordinator w) d)
  ∧ (∀ k d i, registry w !! k = Some d → child_of d = Some i →
       i ∈ child_ids (coordinator w) → registry w' !! k = Some d)
  ∧ coordinator w' = coordinator w.
Proof.
  intros (Hco & _ & _ & Hsub & Hkept & Hexact & Htotal)
    %async_remove_deleted_childs_spec.
  split; [done|]. split; [|split; [|done]].
  - intros Hr k d. split.
    + intros Hk. split; [by apply Hsub|by eapply Hexact].
    + intros [Hk Hknown]. by apply Hkept.
  - intros k d i Hk Hchild Hi. apply Hkept; [done|].
    intros (_ & i' & Hi' & Hnew). by replace i' with i in Hnew by congruence.
Qed.

Lemma reconciliation_removes_exactly_unknown_witness :
  registry (async_remove_deleted_childs later_world).1 !! "device-1"
  = Some {| identifiers := [("babybuddy", 1)]; config_entries := ["entry"] |}
  ∧ registry (async_remove_deleted_childs later_world).1 !! "device-2" = None.
Proof.
  pose proof (reconciliation_removes_exactly_unknown later_world
                (async_remove_deleted_childs later_world).1 (Ok ()))
    as Hspec.
  destruct Hspec as (_ & Hexact & Hkept & _); [vm_compute; reflexivity|].
  split.
  - apply (Hkept "device-1" _ 1); [reflexivity | reflexivity | left].
  - destruct (registry (async_remove_deleted_childs later_world).1
                !! "device-2") as [d|] eqn:Hd; [|reflexivity].
    apply (Hexact eq_refl) in Hd as [Hd Hknown]. destruct Hknown.
    injection Hd as <-. split; [left|].
    exists 2. split; [reflexivity|]. vm_compute. intros Hin.
    inversion Hin as [|? ? ? Hin']. inversion Hin'.
Defined.

(** C5: a server error on the root listing is reported as an
    authorization failure, and setup hands it on as
    [ConfigEntryAuthFailed]: the first handler of [async_connect] takes
    every [ClientResponseError] and does not look at its status, unlike
    the handler of the children-list fetch. *)
Theorem connect_server_error_is_authorization_error :
  async_connect (root_session 500 ∅) example_client
  = (example_client, Raise AuthorizationError)
  ∧ AuthorizationError ≠ ConnectError (ClientResponseError 500)
  ∧ (async_setup "babybuddy" (root_session 500 ∅) example_world).2
    = Raise ConfigEntryAuthFailed.
Proof. split; [reflexivity|]. split; [discriminate|reflexivity]. Qed.

(** * Further properties of the client *)

Lemma get_json_not_KeyError {A} (r : reply A) (k : string) :
  get_json r ≠ Raise (KeyError k).
Proof. destruct r; simpl; [case_bool_decide|..]; discriminate. Qed.


Lemma async_connect_raise_keeps session self self' err :
  async_connect session self = (self', Raise err) → self' = self.
Proof.
  unfold async_connect.
  destruct (async_get _ _ _ _) as [listing|[]]; by intros [= <-].
Qed.

(** X2: a GET for a non-empty endpoint name raises [KeyError] exactly
    when the name is not in the endpoint map, and it then raises
    whatever the session would answer, since no request is made.  A
    client that was just constructed knows no name at all, and a
    connect that fails leaves it so. *)
Theorem named_get_needs_the_map
    (A : Type) (get : string → Headers → reply A) (self : BabyBuddyClient)
    (endpoint : string) (entry : option string) :
  endpoint ≠ "" →
  (async_get get self (Some endpoint) entry = Raise (KeyError endpoint)
   ↔ endpoints self !! endpoint = None)
  ∧ (∀ host port api_key,
       async_get get (BabyBuddyClient_init host port api_key)
         (Some endpoint) entry
       = Raise (KeyError endpoint))
  ∧ (∀ host port api_key session self' err,
       async_connect session (BabyBuddyClient_init host port api_key)
       = (self', Raise err) →
       async_get get self' (Some endpoint) entry = Raise (KeyError endpoint)).
Proof.
  intros Hname.
  assert (∀ c, endpoints c !! endpoint = None →
               async_get get c (Some endpoint) entry
               = Raise (KeyError endpoint)) as Hmissing.
  { intros c Hc. unfold async_get, request_url.
    rewrite (truthy_name _ Hname). simpl. by rewrite Hc. }
  split; [|split].
  - split; [|apply Hmissing].
    unfold async_get, request_url. rewrite (truthy_name _ Hname). simpl.
    destruct (endpoints self !! endpoint) as [u|]; [|done].
    intros Hget. exfalso.
    destruct (truthy entry); by apply get_json_not_KeyError in Hget.
  - intros host port api_key. by apply Hmissing.
  - intros host port api_key session self' err Hconnect.
    apply async_connect_raise_keeps in Hconnect as ->. by apply Hmissing.
Qed.

Lemma named_get_needs_the_map_witness :
  async_get (get_children timeout_session)
    (BabyBuddyClient_init "http://babybuddy" 8000 "key")
    (Some "children") None
  = Raise (KeyError "children").
Proof.
  refine (proj1 (proj2 (named_get_needs_the_map _
            (get_children timeout_session) example_client
            "children" None _)) "http://babybuddy" 8000 "key").
  discriminate.
Defined.




(** * Further properties of a refresh pass *)

(** When the loop returns, [J done] has held after each prefix [done]
    of the items. *)
Lemma for_each_post {A S} (J : list A → World → S → Prop)
    (body : A → S → M S) (todo : list A) :
  (∀ done a rest s w w' s', todo = done ++ a :: rest → J done w s →
     body a s w = (w', Ok s') → J (done ++ [a]) w' s') →
  ∀ s w w' s', J [] w s →
    for_each body todo s w = (w', Ok s') → J todo w' s'.
Proof.
  intros Hbody.
  enough (∀ rest done, todo = done ++ rest → ∀ s w w' s', J done w s →
            for_each body rest s w = (w', Ok s') → J todo w' s')
    as Hgen by (intros s w w' s'; by apply (Hgen todo [])).
  induction rest as [|a rest IH]; intros done Htodo s w w' s' HJ; simpl.
  - rewrite app_nil_r in Htodo. subst done. by intros [= <- <-].
  - unfold bind. destruct (body a s w) as [w1 [s1|e]] eqn:Hstep; [|done].
    apply (IH (done ++ [a])); [by rewrite <- app_assoc|].
    by eapply Hbody.
Qed.

Section MorePassProperties.

Variable ATTR_CHILDREN : string.
Variable SENSOR_TYPES : list SensorEntityDescription.
Variable session : ClientSession.

(** ** The keys of the snapshot *)

Lemma endpoint_body_dom child e (s : snapshot) w w' s' :
  endpoint_body session child e s w = (w', Ok s') → dom s' = dom s.
Proof.
  intros [_ Hs']%endpoint_body_spec.
  destruct (Hs' s' eq_refl) as [->|(p & data & latest & _ & _ & Hl & ->)];
    [done|].
  rewrite dom_insert_L. apply (elem_of_dom_2 s) in Hl.
  by apply subseteq_union_1_L, singleton_subseteq_l.
Qed.

Lemma for_endpoints_dom child todo (s : snapshot) w w' s' :
  for_each (endpoint_body session child) todo s w = (w', Ok s') →
  dom s' = dom s.
Proof.
  apply (for_each_inv (λ _ s0, dom s0 = dom s)); [|done].
  intros e s0 w0 w0' s0' _ <-. apply endpoint_body_dom.
Qed.

Lemma child_body_dom child (s : snapshot) w w' s' :
  child_body SENSOR_TYPES session child s w = (w', Ok s') →
  dom s' = {[child_id child]} ∪ dom s.
Proof.
  unfold child_body, bind. destruct (remember_child child w) as [w1 [[]|e]];
    [|done].
  intros ->%for_endpoints_dom. apply dom_setdefault.
Qed.

Lemma for_children_dom todo (s : snapshot) w w' s' :
  for_each (child_body SENSOR_TYPES session) todo s w = (w', Ok s') →
  dom s' = list_to_set (child_id <$> todo) ∪ dom s.
Proof.
  revert s w. induction todo as [|child todo IH]; intros s w; simpl.
  - intros [= <- <-]. by rewrite union_empty_l_L.
  - unfold bind.
    destruct (child_body _ _ child s w) as [w1 [s1|e]] eqn:Hstep; [|done].
    intros ->%IH. apply child_body_dom in Hstep as ->.
    by rewrite union_assoc_L, (union_comm_L _ {[child_id child]}).
Qed.

Lemma keys_within_empty K : keys_within K ∅.
Proof. intros i k v. by rewrite entry_empty. Qed.

Lemma endpoint_body_keys K child e s w w' s' :
  key e ∈ K → keys_within K s →
  endpoint_body session child e s w = (w', Ok s') → keys_within K s'.
Proof.
  intros He Hs [_ Hs']%endpoint_body_spec.
  destruct (Hs' s' eq_refl) as [->|(p & data & latest & _ & _ & Hl & ->)];
    [done|].
  intros i k v. rewrite (entry_store _ _ _ _ _ _ _ Hl).
  case_decide as Hik; [|apply Hs]. by destruct Hik as [_ ->].
Qed.

Lemma for_children_keys todo w w' s' :
  for_each (child_body SENSOR_TYPES session) todo ∅ w = (w', Ok s') →
  keys_within (key <$> SENSOR_TYPES) s'.
Proof.
  apply (for_each_inv (λ _ s, keys_within (key <$> SENSOR_TYPES) s));
    [|apply keys_within_empty].
  intros child s0 w0 w0' s0' _ Hs0. unfold child_body, bind.
  destruct (remember_child child w0) as [w1 [[]|e]]; [|done].
  apply (for_each_inv (λ _ s, keys_within (key <$> SENSOR_TYPES) s)).
  - intros e s1 w1' w2 s2 He. apply endpoint_body_keys.
    by apply list_elem_of_fmap_2.
  - intros i k v. rewrite entry_setdefault. apply Hs0.
Qed.

(** ** Every fetch that returned is stored *)






(** ** What a pass logs *)

Lemma fetch_latest_log child e w w' r :
  fetch_latest session child e w = (w', r) →
  logger w' = logger w ++ fetch_log session (client (coordinator w)) child e.
Proof.
  unfold fetch_latest, try_except, bind, self_client, lift, ret, log, raise,
    fetch_log, latest_of.
  destruct (async_get _ _ _ _) as [p|err].
  - intros [= <- _]. by rewrite app_nil_r.
  - destruct err; intros [= <- _]; simpl; by rewrite ?app_nil_r.
Qed.

Lemma endpoint_body_log child e s w w' r :
  endpoint_body session child e s w = (w', r) →
  logger w' = logger w ++ fetch_log session (client (coordinator w)) child e.
Proof.
  unfold endpoint_body, bind.
  destruct (fetch_latest _ _ _ _) as [w1 r1] eqn:Hfetch.
  apply fetch_latest_log in Hfetch.
  destruct r1 as [[p|]|err]; [|by intros [= <- _]..].
  unfold lift. destruct (getitem _ _); by intros [= <- _].
Qed.

Lemma for_endpoints_log child todo s w w' s' :
  for_each (endpoint_body session child) todo s w = (w', Ok s') →
  logger w'
  = logger w ++ (todo ≫= fetch_log session (client (coordinator w)) child).
Proof.
  revert s w. induction todo as [|e todo IH]; intros s w; simpl.
  - intros [= <- _]. by rewrite app_nil_r.
  - unfold bind.
    destruct (endpoint_body _ child e s w) as [w1 [s1|err]] eqn:Hstep;
      [|done].
    intros ->%IH. rewrite (endpoint_body_log _ _ _ _ _ _ Hstep).
    apply endpoint_body_spec in Hstep as [(-> & _) _].
    by rewrite <- app_assoc.
Qed.

Lemma remember_child_logger child w w' r :
  remember_child child w = (w', r) → logger w' = logger w.
Proof. unfold remember_child. case_bool_decide; by intros [= <- _]. Qed.

Lemma for_children_log todo s w w' s' :
  for_each (child_body SENSOR_TYPES session) todo s w = (w', Ok s') →
  logger w'
  = logger w ++ pass_log SENSOR_TYPES session (client (coordinator w)) todo.
Proof.
  unfold pass_log.
  revert s w. induction todo as [|child todo IH]; intros s w; simpl.
  - intros [= <- _]. by rewrite app_nil_r.
  - unfold bind.
    destruct (child_body _ _ child s w) as [w1 [s1|err]] eqn:Hstep; [|done].
    intros ->%IH. pose proof (child_body_grows _ _ _ _ _ _ _ Hstep) as (-> & _).
    rewrite app_assoc. f_equal.
    revert Hstep. unfold child_body, bind.
    destruct (remember_child child w) as [w2 r2] eqn:Hremember.
    pose proof (remember_child_logger _ _ _ _ Hremember) as <-.
    apply remember_child_spec in Hremember as (-> & (<- & _) & _).
    apply for_endpoints_log.
Qed.

(** ** The known identifiers stay distinct *)

Lemma remember_child_NoDup child w w' r :
  remember_child child w = (w', r) →
  NoDup (child_ids (coordinator w)) → NoDup (child_ids (coordinator w')).
Proof.
  unfold remember_child. case_bool_decide as Hnew; intros [= <- _]; [|done].
  simpl. intros Hids. apply NoDup_app. split; [done|]. split.
  - intros i Hi ->%list_elem_of_singleton. done.
  - apply NoDup_singleton.
Qed.

Lemma child_body_NoDup child s w w' r :
  child_body SENSOR_TYPES session child s w = (w', r) →
  NoDup (child_ids (coordinator w)) → NoDup (child_ids (coordinator w')).
Proof.
  unfold child_body, bind.
  destruct (remember_child child w) as [w1 r1] eqn:Hremember.
  pose proof (remember_child_NoDup _ _ _ _ Hremember) as Hstep.
  apply remember_child_spec in Hremember as (-> & _).
  intros (-> & _)%for_endpoints_logs_only. done.
Qed.

Lemma for_children_NoDup todo s w w' r :
  for_each (child_body SENSOR_TYPES session) todo s w = (w', r) →
  NoDup (child_ids (coordinator w)) → NoDup (child_ids (coordinator w')).
Proof.
  apply (for_each_world
           (λ w w', NoDup (child_ids (coordinator w)) →
                    NoDup (child_ids (coordinator w')))); [auto..|].
  intros child s0 w0 w0' r0 _. apply child_body_NoDup.
Qed.

Lemma child_body_remembers child s w w' r :
  child_body SENSOR_TYPES session child s w = (w', r) →
  child_id child ∈ child_ids (coordinator w').
Proof.
  unfold child_body, bind.
  destruct (remember_child child w) as [w1 r1] eqn:Hremember.
  apply remember_child_spec in Hremember as (-> & _ & Hin).
  intros (-> & _)%for_endpoints_logs_only. done.
Qed.

Lemma for_children_remembers todo s w w' s' :
  for_each (child_body SENSOR_TYPES session) todo s w = (w', Ok s') →
  ∀ child, child ∈ todo → child_id child ∈ child_ids (coordinator w').
Proof.
  apply (for_each_post
           (λ done w1 _, ∀ child, child ∈ done →
                           child_id child ∈ child_ids (coordinator w1))).
  - intros done a rest s1 w1 w2 s2 _ Hdone Hstep child
      [Hchild|Hchild%list_elem_of_singleton]%elem_of_app.
    + apply child_body_grows in Hstep as (_ & _ & _ & _ & [added ->] & _).
      apply elem_of_app. left. by apply Hdone.
    + subst child. by eapply child_body_remembers.
  - by intros child ?%elem_of_nil.
Qed.

(** ** The course of a pass, whatever its outcome *)

Lemma async_update_inv w w' r :
  async_update ATTR_CHILDREN SENSOR_TYPES session w = (w', r) →
  (w' = w ∧ ∃ e, r = Raise e)
  ∨ ∃ children_list children w1 r1,
      children_of ATTR_CHILDREN session w = Ok children_list
      ∧ results children_list = Some children
      ∧ for_each (child_body SENSOR_TYPES session) children ∅ w = (w1, r1)
      ∧ match r1 with
        | Raise e => w' = w1 ∧ r = Raise e
        | Ok s =>
            ∃ r2, async_remove_deleted_childs w1 = (w', r2)
                  ∧ r = match r2 with
                        | Ok _ => Ok (children, s)
                        | Raise e => Raise e
                        end
        end.
Proof.
  unfold async_update, bind. rewrite fetch_children_spec.
  destruct (children_of ATTR_CHILDREN session w) as [p|err] eqn:Hfetch.
  - unfold lift, getitem.
    destruct (count p) as [n|] eqn:Hcount;
      [|intros [= <- <-]; left; eauto].
    case_bool_decide as Hn; [intros [= <- <-]; left; eauto|].
    destruct (results p) as [cs|] eqn:Hresults;
      [|intros [= <- <-]; left; eauto].
    destruct (for_each _ cs ∅ w) as [w1 r1] eqn:Hloop.
    intros Hrun. right. exists p, cs, w1, r1. do 3 (split; [done|]).
    destruct r1 as [s|e]; [|by injection Hrun as <- <-].
    destruct (async_remove_deleted_childs w1) as [w2 r2] eqn:Hremove.
    exists r2. destruct r2 as [[]|e]; by injection Hrun as <- <-.
  - destruct err; try (intros [= <- <-]; left; eauto).
    case_bool_decide; intros [= <- <-]; left; eauto.
Qed.

(** ** Reconciliation, once more *)

Lemma remove_devices_ok_identified ids l (dr dr' : DeviceRegistry) :
  remove_devices ids l dr = (dr', Ok ()) →
  ∀ k d, (k, d) ∈ l → identifiers d ≠ [].
Proof.
  revert dr. induction l as [|[k0 d0] l IH]; intros dr; simpl.
  - intros _ k d Hin. by apply elem_of_nil in Hin.
  - destruct (identifiers d0) as [|identifier others] eqn:Hident; [done|].
    intros Hrest k d [Hhead|Hin]%elem_of_cons.
    + injection Hhead as -> ->. by rewrite Hident.
    + revert Hrest. case_bool_decide; intros Hrest; by eapply IH.
Qed.

Lemma async_remove_deleted_childs_ok_identified w w' :
  async_remove_deleted_childs w = (w', Ok ()) → identified w.
Proof.
  unfold async_remove_deleted_childs.
  destruct (remove_devices _ _ _) as [dr' r'] eqn:Hloop.
  intros [= _ ->] k d Hk Hentry.
  eapply remove_devices_ok_identified; [done|]. by apply elem_of_entries.
Qed.

Lemma async_remove_deleted_childs_registry w w' r :
  async_remove_deleted_childs w = (w', r) → w' = set_registry w (registry w').
Proof.
  unfold async_remove_deleted_childs.
  destruct (remove_devices _ _ _) as [dr' r']. by intros [= <- _].
Qed.

Lemma set_registry_same w : set_registry w (registry w) = w.
Proof. by destruct w. Qed.

End MorePassProperties.

Lemma set_client_same w : set_client w (client (coordinator w)) = w.
Proof. by destruct w as [[]]. Qed.


(** X6: whatever fetches failed, the snapshot a pass returns has exactly
    the identifiers of the listed children as its keys (a child whose
    every fetch failed is there with an empty mapping), and every record
    in it sits under the key of one of [SENSOR_TYPES]. *)
Theorem snapshot_keys_in_any_pass
    (ATTR_CHILDREN : string) (SENSOR_TYPES : list SensorEntityDescription)
    (session : ClientSession) (w w' : World)
    (children : list Child) (child_data : snapshot) :
  async_update ATTR_CHILDREN SENSOR_TYPES session w
  = (w', Ok (children, child_data)) →
  dom child_data = (list_to_set (child_id <$> children) : gset Z)
  ∧ keys_within (key <$> SENSOR_TYPES) child_data.
Proof.
  intros (_ & _ & w1 & _ & _ & _ & _ & Hloop & _)%async_update_ok_inv.
  split.
  - rewrite (for_children_dom _ _ _ _ _ _ _ Hloop).
    by rewrite dom_empty_L, union_empty_r_L.
  - by eapply for_children_keys.
Qed.

Lemma snapshot_keys_in_any_pass_witness :
  dom ({[ 1 := ∅ ]} : snapshot) = (list_to_set [1] : gset Z)
  ∧ keys_within ["feeding"] {[ 1 := ∅ ]}.
Proof.
  pose (session := example_server (Response 200 one_child)
                     (Response 500 empty_dict)).
  refine (snapshot_keys_in_any_pass "children" [feeding] session later_world
            (async_update "children" [feeding] session later_world).1
            [example_child] {[ 1 := ∅ ]} _).
  vm_compute. reflexivity.
Defined.



(** X8: a pass that returns has added to the log one record for every
    fetch that raised, in the order of the loops (children, then
    endpoints): the skip notice with the child's names for an HTTP error,
    the exception for a timeout or transport error, and nothing else. *)
Theorem pass_logs_each_failed_fetch
    (ATTR_CHILDREN : string) (SENSOR_TYPES : list SensorEntityDescription)
    (session : ClientSession) (w w' : World)
    (children : list Child) (child_data : snapshot) :
  async_update ATTR_CHILDREN SENSOR_TYPES session w
  = (w', Ok (children, child_data)) →
  logger w'
  = logger w
    ++ pass_log SENSOR_TYPES session (client (coordinator w)) children.
Proof.
  intros (_ & _ & w1 & _ & _ & _ & _ & Hloop & Hremove)%async_update_ok_inv.
  apply async_remove_deleted_childs_spec in Hremove as (_ & _ & -> & _).
  by eapply for_children_log.
Qed.

Lemma pass_logs_each_failed_fetch_witness :
  logger (async_update "children" [feeding]
            (example_server (Response 200 one_child) TimedOut)
            later_world).1
  = [LogError TimeoutError].
Proof.
  exact (pass_logs_each_failed_fetch "children" [feeding]
           (example_server (Response 200 one_child) TimedOut) later_world
           (async_update "children" [feeding]
              (example_server (Response 200 one_child) TimedOut)
              later_world).1
           [example_child] skipped_snapshot eq_refl).
Defined.

Lemma remove_devices_raise ids l (dr dr' : DeviceRegistry) e :
  remove_devices ids l dr = (dr', Raise e) → ∃ detail, e = RuntimeError detail.
Proof.
  revert dr. induction l as [|[k0 d0] l IH]; intros dr; simpl; [done|].
  destruct (identifiers d0); [intros [= _ <-]; eauto|].
  case_bool_decide; apply IH.
Qed.

Lemma async_remove_deleted_childs_raise w w' r :
  async_remove_deleted_childs w = (w', r) →
  ∀ e, r = Raise e → ∃ detail, e = RuntimeError detail.
Proof.
  unfold async_remove_deleted_childs.
  destruct (remove_devices _ _ _) as [dr' r'] eqn:Hloop.
  intros [= _ <-] e ->. by eapply remove_devices_raise.
Qed.

Lemma async_update_NoDup ATTR_CHILDREN SENSOR_TYPES session w w' r :
  async_update ATTR_CHILDREN SENSOR_TYPES session w = (w', r) →
  NoDup (child_ids (coordinator w)) → NoDup (child_ids (coordinator w')).
Proof.
  intros [[-> _]|(p & cs & w1 & r1 & _ & _ & Hloop & Hend)]%async_update_inv;
    [done|].
  intros Hids. apply for_children_NoDup in Hloop; [|done].
  destruct r1 as [s|e]; [|by destruct Hend as [-> _]].
  destruct Hend as (r2 & Hremove & _).
  apply async_remove_deleted_childs_spec in Hremove as (-> & _). done.
Qed.

Lemma async_refresh_coordinator ATTR_CHILDREN SENSOR_TYPES session w :
  ∃ w' r,
    async_update ATTR_CHILDREN SENSOR_TYPES session w = (w', r)
    ∧ child_ids (coordinator (async_refresh ATTR_CHILDREN SENSOR_TYPES session w))
      = child_ids (coordinator w')
    ∧ entry_id (coordinator (async_refresh ATTR_CHILDREN SENSOR_TYPES session w))
      = entry_id (coordinator w')
    ∧ registry (async_refresh ATTR_CHILDREN SENSOR_TYPES session w)
      = registry w'.
Proof.
  unfold async_refresh.
  destruct (async_update ATTR_CHILDREN SENSOR_TYPES session w) as [w' r].
  exists w', r. by destruct r.
Qed.

(** X9: the known identifiers stay free of duplicates: a pass, however
    it ends, appends an identifier only when it is not there yet, so a
    list without duplicates is one after any sequence of passes; and a
    pass that returns has every listed child among them. *)
Theorem child_ids_stay_distinct
    (ATTR_CHILDREN : string) (SENSOR_TYPES : list SensorEntityDescription)
    (ticks : list ClientSession) (w : World) :
  NoDup (child_ids (coordinator w)) →
  NoDup (child_ids
           (coordinator (refresh_passes ATTR_CHILDREN SENSOR_TYPES ticks w)))
  ∧ ∀ session w' children child_data child,
      async_update ATTR_CHILDREN SENSOR_TYPES session w
      = (w', Ok (children, child_data)) →
      child ∈ children →
      child_id child ∈ child_ids (coordinator w').
Proof.
  intros Hids. split.
  - revert w Hids. induction ticks as [|session ticks IH]; intros w Hids;
      simpl; [done|].
    apply IH.
    destruct (async_refresh_coordinator ATTR_CHILDREN SENSOR_TYPES session w)
      as (w' & r & Hrun & -> & _).
    by eapply async_update_NoDup.
  - intros session w' children child_data child
      (_ & _ & w1 & _ & _ & _ & _ & Hloop & Hremove)%async_update_ok_inv
      Hchild.
    apply async_remove_deleted_childs_spec in Hremove as (-> & _).
    by eapply for_children_remembers.
Qed.

Lemma child_ids_stay_distinct_witness :
  NoDup (child_ids
           (coordinator
              (refresh_passes "children" [feeding]
                 [example_session; example_session] later_world))).
Proof.
  refine (proj1 (child_ids_stay_distinct "children" [feeding]
                   [example_session; example_session] later_world _)).
  apply NoDup_singleton.
Defined.

(** X10: however a pass ends, it adds no device to the registry and
    changes none, it keeps every device that is not a device of its own
    config entry with a child outside the identifiers known at its end,
    and it leaves the service table and the client alone.  A pass that
    raises anything but the [RuntimeError] of reconciliation has not
    touched the registry at all. *)
Theorem pass_removes_only_own_unknown_devices
    (ATTR_CHILDREN : string) (SENSOR_TYPES : list SensorEntityDescription)
    (session : ClientSession) (w w' : World)
    (r : res (list Child * snapshot)) :
  async_update ATTR_CHILDREN SENSOR_TYPES session w = (w', r) →
  (∀ k d, registry w' !! k = Some d → registry w !! k = Some d)
  ∧ (∀ k d, registry w !! k = Some d → ¬ unknown (coordinator w') d →
       registry w' !! k = Some d)
  ∧ services w' = services w
  ∧ client (coordinator w') = client (coordinator w)
  ∧ (∀ e, r = Raise e → (∀ detail, e ≠ RuntimeError detail) →
       registry w' = registry w).
Proof.
  intros [[-> _]|(p & cs & w1 & r1 & _ & _ & Hloop & Hend)]%async_update_inv;
    [done|].
  apply for_children_grows in Hloop as (Hc & He & Hregistry & Hs & _).
  destruct r1 as [s|e].
  - destruct Hend as (r2 & Hremove & ->).
    pose proof (async_remove_deleted_childs_raise _ _ _ Hremove) as Hraise.
    apply async_remove_deleted_childs_spec in Hremove
      as (Hco & Hs' & _ & Hsub & Hkept & _).
    rewrite Hregistry in *.
    split; [done|]. split; [|split; [congruence|split; [congruence|]]].
    + intros k d Hk Hknown. apply Hkept; [done|]. by rewrite <- Hco.
    + intros e Hr Hother. destruct r2 as [[]|e']; [done|].
      injection Hr as ->. destruct (Hraise e eq_refl) as [detail ->].
      by destruct (Hother detail).
  - destruct Hend as [-> ->]. rewrite Hregistry.
    split; [done|]. split; [done|]. by do 2 (split; [done|]).
Qed.

Lemma pass_removes_only_own_unknown_devices_witness :
  registry (async_update "children" [feeding] example_session later_world).1
    !! "device-3"
  = Some {| identifiers := [("other", 2)]; config_entries := ["other-entry"] |}.
Proof.
  refine (proj1 (proj2 (pass_removes_only_own_unknown_devices
            "children" [feeding] example_session later_world
            (async_update "children" [feeding] example_session later_world).1
            (Ok ([example_child], example_snapshot)) _)) "device-3" _ _ _).
  - vm_compute. reflexivity.
  - reflexivity.
  - intros [Hentry _]. vm_compute in Hentry.
    inversion Hentry as [|? ? ? Hin]. inversion Hin.
Defined.

Lemma async_update_keeps_known_always
    ATTR_CHILDREN SENSOR_TYPES session w w' r k d i :
  async_update ATTR_CHILDREN SENSOR_TYPES session w = (w', r) →
  registry w !! k = Some d → child_of d = Some i →
  i ∈ child_ids (coordinator w) →
  registry w' !! k = Some d ∧ i ∈ child_ids (coordinator w').
Proof.
  intros Hrun Hk Hchild Hi.
  pose proof (async_update_child_ids _ _ _ _ _ _ Hrun)
    as (_ & _ & [added Hadded] & _).
  assert (i ∈ child_ids (coordinator w')) as Hi'
    by (rewrite Hadded; apply elem_of_app; by left).
  split; [|done].
  apply async_update_inv
    in Hrun as [[-> _]|(p & cs & w1 & r1 & _ & _ & Hloop & Hend)]; [done|].
  apply for_children_grows in Hloop as (_ & _ & Hregistry & _).
  destruct r1 as [s|e]; [|destruct Hend as [-> _]; by rewrite Hregistry].
  destruct Hend as (r2 & Hremove & _).
  apply async_remove_deleted_childs_spec in Hremove
    as (Hco & _ & _ & _ & Hkept & _).
  apply Hkept; [by rewrite Hregistry|].
  intros (_ & i' & Hi'' & Hnew). rewrite <- Hco in Hnew.
  by replace i' with i in Hnew by congruence.
Qed.

(** X11: the device of a child whose identifier is known is never
    removed again: it is still registered after any sequence of later
    passes, whether they return or raise and whether or not the server
    still lists the child.  A pass that returns has also kept the device
    of every child in the list it fetched. *)
Theorem known_child_keeps_its_device
    (ATTR_CHILDREN : string) (SENSOR_TYPES : list SensorEntityDescription)
    (w : World) (k : string) (d : DeviceEntry) (i : Z) :
  registry w !! k = Some d → child_of d = Some i →
  (i ∈ child_ids (coordinator w) →
   ∀ ticks,
     registry (refresh_passes ATTR_CHILDREN SENSOR_TYPES ticks w) !! k
     = Some d)
  ∧ (∀ session w' children child_data child,
       async_update ATTR_CHILDREN SENSOR_TYPES session w
       = (w', Ok (children, child_data)) →
       child ∈ children → child_id child = i →
       registry w' !! k = Some d).
Proof.
  intros Hk Hchild. split.
  - intros Hi ticks. revert w Hk Hi.
    induction ticks as [|session ticks IH]; intros w Hk Hi; simpl; [done|].
    destruct (async_refresh_coordinator ATTR_CHILDREN SENSOR_TYPES session w)
      as (w' & r & Hrun & Hids & _ & Hregistry).
    destruct (async_update_keeps_known_always _ _ _ _ _ _ _ _ _
                Hrun Hk Hchild Hi) as [Hk' Hi'].
    apply IH; [by rewrite Hregistry|by rewrite Hids].
  - intros session w' children child_data child Hrun Hin <-.
    eapply async_update_keeps_known; [done..|].
    apply async_update_ok_inv in Hrun
      as (_ & _ & w1 & _ & _ & _ & _ & Hloop & Hremove).
    apply async_remove_deleted_childs_spec in Hremove as (-> & _).
    by eapply for_children_remembers.
Qed.

Lemma known_child_keeps_its_device_witness :
  registry
    (refresh_passes "children" [feeding]
       [example_server (Response 200 {| count := Some 1;
                                        results := Some [] |}) TimedOut]
       later_world) !! "device-1"
  = Some {| identifiers := [("babybuddy", 1)]; config_entries := ["entry"] |}.
Proof.
  refine (proj1 (known_child_keeps_its_device "children" [feeding]
            later_world "device-1" _ 1 _ _) _ _).
  - reflexivity.
  - reflexivity.
  - left.
Defined.

(** X12: reconciliation returns exactly when every device of the config
    entry has an identifier (otherwise it raises [RuntimeError]), and
    running it again right after it returned changes nothing. *)
Theorem reconciliation_returns_and_settles (w w' : World) (r : res unit) :
  async_remove_deleted_childs w = (w', r) →
  (r = Ok () ↔ identified w)
  ∧ (∀ e, r = Raise e → ∃ detail, e = RuntimeError detail)
  ∧ (r = Ok () → async_remove_deleted_childs w' = (w', Ok ())).
Proof.
  intros Hrun. split; [|split].
  - split.
    + intros ->. by eapply async_remove_deleted_childs_ok_identified.
    + by apply async_remove_deleted_childs_spec in Hrun as (_&_&_&_&_&_&?).
  - by eapply async_remove_deleted_childs_raise.
  - intros ->.
    pose proof (async_remove_deleted_childs_ok_identified _ _ Hrun) as Hw.
    apply async_remove_deleted_childs_spec in Hrun
      as (Hco & _ & _ & Hsub & _ & Hexact & _).
    destruct (async_remove_deleted_childs w') as [w'' r2] eqn:Hagain.
    pose proof (async_remove_deleted_childs_registry _ _ _ Hagain) as Hw''.
    apply async_remove_deleted_childs_spec in Hagain
      as (_ & _ & _ & Hsub2 & Hkept2 & _ & Htotal2).
    rewrite Htotal2.
    2:{ intros k d Hk Hentry. rewrite Hco in Hentry.
        eapply Hw; [by apply Hsub|done]. }
    f_equal. rewrite Hw''. rewrite <- (set_registry_same w') at 2. f_equal.
    apply map_eq. intros k.
    destruct (registry w' !! k) as [d|] eqn:Hk.
    + apply Hkept2; [done|]. rewrite Hco. by eapply (Hexact eq_refl).
    + destruct (registry w'' !! k) as [d|] eqn:Hk''; [|done].
      apply Hsub2 in Hk''. congruence.
Qed.

Lemma reconciliation_returns_and_settles_witness :
  async_remove_deleted_childs (async_remove_deleted_childs later_world).1
  = ((async_remove_deleted_childs later_world).1, Ok ()).
Proof.
  refine (proj2 (proj2 (reconciliation_returns_and_settles later_world
            (async_remove_deleted_childs later_world).1 (Ok ()) _)) eq_refl).
  vm_compute. reflexivity.
Defined.

(** * Further properties: the service and the time check *)

(** X13: [get_datetime_from_time] hands back a datetime in the default
    time zone that is not after the clock it compared with, and raises
    [ValidationError] exactly when the value is after it.  The day and
    time of day of a datetime are kept as given, whatever tzinfo it came
    with (it is relabelled, not converted); a time of day is put on the
    day the clock showed first, so one that is later than the clock is
    rejected, not taken for the day before. *)
Theorem returned_time_is_not_in_the_future
    (DEFAULT_TIME_ZONE : string) (first second : Z * Z) (value : time_value) :
  let given :=
    match value with
    | ATime t => (first.1, time_of_day t)
    | ADatetime d => (day d, of_day d)
    end in
  match get_datetime_from_time DEFAULT_TIME_ZONE first second value with
  | Valid d =>
      tzinfo d = Some DEFAULT_TIME_ZONE
      ∧ (day d, of_day d) = given
      ∧ not_before given second
  | ValidationError msg =>
      msg = "Time cannot be in the future." ∧ ¬ not_before given second
  end.
Proof.
  unfold get_datetime_from_time, later, not_before.
  destruct value as [t|d]; simpl; case_bool_decide; simpl;
    repeat split; try done; lia.
Qed.

Lemma not_before_trans a b c : not_before a b → not_before b c → not_before a c.
Proof. unfold not_before. lia. Qed.

Lemma returned_time_bounds DEFAULT_TIME_ZONE first second value :
  match get_datetime_from_time DEFAULT_TIME_ZONE first second value with
  | Valid d =>
      tzinfo d = Some DEFAULT_TIME_ZONE ∧ not_before (day d, of_day d) second
  | ValidationError _ => True
  end.
Proof.
  unfold get_datetime_from_time, later, not_before.
  destruct value as [t|d]; simpl; case_bool_decide; simpl; try done;
    (split; [done|lia]).
Qed.

(** X14: a datetime the function returned passes the check again at any
    later reading of the clock, and comes back unchanged: validating a
    validated value is the identity. *)
Theorem validated_time_stays_valid
    (DEFAULT_TIME_ZONE : string) (first second first' second' : Z * Z)
    (value : time_value) (d : py_datetime) :
  get_datetime_from_time DEFAULT_TIME_ZONE first second value = Valid d →
  not_before second second' →
  get_datetime_from_time DEFAULT_TIME_ZONE first' second' (ADatetime d)
  = Valid d.
Proof.
  intros Hvalid Hclock.
  pose proof (returned_time_bounds DEFAULT_TIME_ZONE first second value)
    as Hbounds.
  rewrite Hvalid in Hbounds. destruct Hbounds as (Htz & Hd).
  pose proof (not_before_trans _ _ _ Hd Hclock) as Hlater.
  unfold get_datetime_from_time, later. simpl.
  rewrite bool_decide_eq_false_2 by (unfold not_before in Hlater; simpl in *; lia).
  destruct d as [dd dt dz]. simpl in *. by subst dz.
Qed.

Lemma validated_time_stays_valid_witness :
  get_datetime_from_time "Europe/Paris" (739000, 0) (739001, 5)
    (ADatetime {| day := 739000; of_day := 7; tzinfo := Some "Europe/Paris" |})
  = Valid {| day := 739000; of_day := 7; tzinfo := Some "Europe/Paris" |}.
Proof.
  refine (validated_time_stays_valid "Europe/Paris" (739000, 3) (739000, 9)
            (739000, 0) (739001, 5)
            (ATime {| time_of_day := 7; time_tzinfo := None |}) _ _ _).
  - reflexivity.
  - left. simpl. lia.
Defined.



(** * Further properties: config entries *)

Lemma async_setup_cases DOMAIN session w :
  let self := client (coordinator w) in
  let answer := get_root session (url self +:+ "/api/") (headers self) in
  (∃ status listing,
     answer = Response status listing ∧ status < 400
     ∧ async_setup DOMAIN session w
       = (set_services (set_client w (set_endpoints self listing))
            (services w ++ [(DOMAIN, "add_child")]),
          Ok ()))
  ∨ (∃ e, async_setup DOMAIN session w = (w, Raise e)
          ∧ (e = ConfigEntryAuthFailed
             ∨ ∃ err, e = ConfigEntryNotReady (ConnectError err))
          ∧ ∀ status listing, answer = Response status listing → 400 ≤ status).
Proof.
  unfold async_setup, bind, try_except, async_connect, async_get. simpl.
  destruct (get_root session _ _) as [status listing| |detail]; simpl.
  - case_bool_decide as Hstatus; simpl.
    + right. rewrite set_client_same. exists ConfigEntryAuthFailed.
      split; [done|]. split; [by left|]. by intros ? ? [= <- _].
    + left. exists status, listing. repeat split. lia.
  - right. rewrite set_client_same. eexists. split; [done|]. split; [|done].
    right. by eexists.
  - right. rewrite set_client_same. eexists. split; [done|]. split; [|done].
    right. by eexists.
Qed.

Lemma async_update_services ATTR_CHILDREN SENSOR_TYPES session w w' r :
  async_update ATTR_CHILDREN SENSOR_TYPES session w = (w', r) →
  services w' = services w.
Proof.
  intros [[-> _]|(p & cs & w1 & r1 & _ & _ & Hloop & Hend)]%async_update_inv;
    [done|].
  apply for_children_grows in Hloop as (_ & _ & _ & Hs & _).
  destruct r1 as [s|e]; [|destruct Hend as [-> _]; done].
  destruct Hend as (r2 & Hremove & _).
  apply async_remove_deleted_childs_spec in Hremove as (_ & -> & _). done.
Qed.

Lemma async_refresh_frame ATTR_CHILDREN SENSOR_TYPES session w :
  let w' := async_refresh ATTR_CHILDREN SENSOR_TYPES session w in
  client (coordinator w') = client (coordinator w)
  ∧ entry_id (coordinator w') = entry_id (coordinator w)
  ∧ services w' = services w
  ∧ data (coordinator w')
    = match async_update ATTR_CHILDREN SENSOR_TYPES session w with
      | (_, Ok result) => Some result
      | (_, Raise _) => data (coordinator w)
      end.
Proof.
  unfold async_refresh.
  destruct (async_update ATTR_CHILDREN SENSOR_TYPES session w)
    as [w' r] eqn:Hrun.
  pose proof (async_update_child_ids _ _ _ _ _ _ Hrun) as (Hc & He & _).
  pose proof (async_update_services _ _ _ _ _ _ Hrun) as Hs.
  destruct r as [result|e]; simpl; [done|].
  do 3 (split; [done|]).
  apply async_update_inv
    in Hrun as [[-> _]|(p & cs & w1 & r1 & _ & _ & Hloop & Hend)]; [done|].
  assert (data (coordinator w1) = data (coordinator w)) as <-.
  { clear Hend.
    revert Hloop. apply (for_each_world
      (λ w w', data (coordinator w') = data (coordinator w)));
      [done|congruence|].
    intros child s0 w0 w0' r0 _. unfold child_body, bind, remember_child.
    case_bool_decide; simpl;
      by intros (-> & _)%for_endpoints_logs_only. }
  destruct r1 as [s|e']; [|by destruct Hend as [-> _]].
  destruct Hend as (r2 & Hremove & _).
  by apply async_remove_deleted_childs_spec in Hremove as (-> & _).
Qed.



Lemma elem_of_async_remove table name registered :
  registered ∈ async_remove table name ↔ registered ∈ table ∧ registered ≠ name.
Proof. unfold async_remove. rewrite list_elem_of_filter. tauto. Qed.

(** X17: unloading returns what the platforms answered.  When they
    unloaded, the entry's coordinator is taken out of [hass.data] and
    every other entry stays; when they did not, [hass.data] is left as
    it is.  Either way the [add_child] service is removed exactly when
    no entry is left afterwards, and nothing else of the host changes.
    Unloading raises [KeyError], and changes nothing, when the domain
    has no table or the platforms unloaded an entry that is not in it. *)
Theorem unload_entry_outcomes
    (DOMAIN : string) (unload_ok : bool) (config_entry : ConfigEntry)
    (hass : HomeAssistant) :
  let id := config_entry_id config_entry in
  match async_unload_entry DOMAIN unload_ok config_entry hass with
  | (hass', Ok returned) =>
      returned = unload_ok
      ∧ ∃ entries left,
          domain_data hass = Some entries
          ∧ domain_data hass' = Some left
          ∧ left = (if unload_ok then delete id entries else entries)
          ∧ (unload_ok = true → is_Some (entries !! id))
          ∧ (∀ service,
               service ∈ service_table hass'
               ↔ service ∈ service_table hass
                 ∧ (service = (DOMAIN, "add_child") → left ≠ ∅))
          ∧ add_child_handler hass'
            = (if bool_decide (left = ∅) then None
               else add_child_handler hass)
          ∧ device_registry hass' = device_registry hass
          ∧ log_records hass' = log_records hass
  | (hass', Raise e) =>
      hass' = hass
      ∧ (domain_data hass = None ∧ e = KeyError DOMAIN
         ∨ unload_ok = true
           ∧ ∃ entries, domain_data hass = Some entries
                        ∧ entries !! id = None ∧ e = KeyError id)
  end.
Proof.
  simpl. unfold async_unload_entry.
  destruct unload_ok; destruct (domain_data hass) as [entries|] eqn:Hdata;
    simpl.
  - destruct (entries !! config_entry_id config_entry) as [stored|] eqn:Hid;
      simpl.
    + split; [done|]. eexists entries, _. do 3 (split; [done|]).
      split; [by eauto|]. split; [|done].
      intros service. case_bool_decide as Hleft.
      * rewrite elem_of_async_remove.
        split; (intros [Hin Hname]; split; [done|]); [by intros ->|].
        intros ->. by apply Hname.
      * split; [by intros Hin|by intros [Hin _]].
    + split; [done|]. right. split; [done|]. by exists entries.
  - split; [done|]. by left.
  - split; [done|]. eexists entries, _. do 3 (split; [done|]).
    split; [done|]. split; [|done].
    intros service. case_bool_decide as Hleft.
    + rewrite elem_of_async_remove.
      split; (intros [Hin Hname]; split; [done|]); [by intros ->|].
      intros ->. by apply Hname.
    + split; [by intros Hin|by intros [Hin _]].
  - split; [done|]. by left.
Qed.

(** X18: unloading an entry right after it was set up takes its
    coordinator out again and leaves the other entries as they were
    before the setup.  If it was the only one, the [add_child] service
    is gone; if others remain, the service stays registered and its
    handler is still the closure of the coordinator that was just
    unloaded, not of one that remains. *)
Theorem setup_then_unload
    (DOMAIN ATTR_CHILDREN : string)
    (SENSOR_TYPES : list SensorEntityDescription) (DEFAULT_SCAN_INTERVAL : Z)
    (session : ClientSession) (config_entry : ConfigEntry)
    (hass hass1 : HomeAssistant) (returned : bool) :
  let id := config_entry_id config_entry in
  let others := delete id (default ∅ (domain_data hass)) in
  async_setup_entry DOMAIN ATTR_CHILDREN SENSOR_TYPES DEFAULT_SCAN_INTERVAL
    session config_entry hass
  = (hass1, Ok returned) →
  ∃ hass2,
    async_unload_entry DOMAIN true config_entry hass1 = (hass2, Ok true)
    ∧ domain_data hass2 = Some others
    ∧ ((DOMAIN, "add_child") ∈ service_table hass2 ↔ others ≠ ∅)
    ∧ add_child_handler hass2
      = (if bool_decide (others = ∅) then None else Some id).
Proof.
  simpl. unfold async_setup_entry.
  destruct (async_setup_cases DOMAIN session
              (world_of hass (this (BabyBuddyCoordinator_init
                                      DEFAULT_SCAN_INTERVAL config_entry))))
    as [(status & listing & _ & _ & ->)|(e & -> & _)]; [|done].
  set (w1 := set_services _ _).
  pose proof (async_refresh_frame ATTR_CHILDREN SENSOR_TYPES session w1)
    as (_ & _ & Hs & _).
  intros [= <- _]. unfold async_unload_entry. simpl.
  rewrite lookup_insert_eq. simpl. rewrite delete_insert_eq.
  eexists. split; [done|]. simpl. split; [done|]. split; [|done].
  case_bool_decide as Hothers.
  - rewrite elem_of_async_remove. split; [by intros [_ Hname]|done].
  - split; [done|]. intros _. rewrite Hs. subst w1. simpl.
    apply elem_of_app. right. left.
Qed.

Lemma setup_then_unload_witness :
  ∃ hass2,
    async_unload_entry "babybuddy" true example_entry
      (async_setup_entry "babybuddy" "children" [feeding] 60 example_session
         example_entry empty_host).1
    = (hass2, Ok true)
    ∧ domain_data hass2 = Some (delete "entry" ∅)
    ∧ (("babybuddy", "add_child") ∈ service_table hass2
       ↔ delete "entry" (∅ : gmap string Coordinator) ≠ ∅)
    ∧ add_child_handler hass2
      = (if bool_decide (delete "entry" (∅ : gmap string Coordinator) = ∅)
         then None else Some "entry").
Proof.
  refine (setup_then_unload "babybuddy" "children" [feeding] 60
            example_session example_entry empty_host
            (async_setup_entry "babybuddy" "children" [feeding] 60
               example_session example_entry empty_host).1 true _).
  vm_compute. reflexivity.
Defined.


